(** * gadalka/main.py: the horoscope bot, its store and its daily broadcast

    A shallow embedding of [src/gadalka/main.py].

    - [Sqlite]: the two tables of [DatabaseManager._init_db] and the three
      SQL statements the program issues, with SQLite's semantics written out
      (INSERT OR REPLACE, AUTOINCREMENT, the foreign-key pragma).
    - [Re]: the fragment of Python's [re] that the two callback patterns of
      [HoroscopeBot.run] use, with [re.match] as the dispatcher calls it.
    - [Effects]: the collaborators (GigaChat, the Telegram transport, the
      clock and the failures of the storage layer) as oracles over the
      history of calls, and a state-and-exception monad over the world.
    - [DatabaseManager], [HoroscopeBot]: the methods of the two classes.

    Strings are byte strings holding the UTF-8 encoding of the source's
    text. *)

From Stdlib Require Import ZArith List String Ascii Bool Lia.
From Stdlib Require Import DecimalString Permutation.
Import ListNotations.

Set Implicit Arguments.

Local Open Scope Z_scope.
Local Open Scope list_scope.

Infix "+++" := String.append (right associativity, at level 60).

(** ** Python values the program formats into text *)

Definition LF : string := String (ascii_of_nat 10) EmptyString.

(** [str(n)] for an [int]. *)
Definition str_int (n : Z) : string := NilZero.string_of_int (Z.to_int n).

(** What an f-string prints for a value read back from a TEXT column:
    a NULL arrives as [None]. *)
Definition str_text (v : option string) : string :=
  match v with
  | Some s => s
  | None => "None"%string
  end.

(** [c.lower()] for a letter A to Z; every other byte stays. *)
Definition lower_ascii (c : ascii) : ascii :=
  let n := nat_of_ascii c in
  if (Nat.leb 65 n && Nat.leb n 90)%bool then ascii_of_nat (n + 32) else c.

(** [s.lower()], as far as the comparison with the word start can tell:
    apart from A to Z, [str.lower] maps no character to one of the
    letters s, t, a, r. *)
Fixpoint lower (s : string) : string :=
  match s with
  | EmptyString => EmptyString
  | String c s' => String (lower_ascii c) (lower s')
  end.

(** Every failure the program handles is an instance of [Exception]
    ([except Exception as e]); [str(e)] is its message. *)
Inductive Exn : Type :=
| Exception (message : string).

Definition str_exn (e : Exn) : string :=
  match e with Exception m => m end.

Inductive Result (A : Type) : Type :=
| Ok (a : A)
| Raised (e : Exn).
Arguments Ok {A} a.
Arguments Raised {A} e.

Definition ZODIAC_SIGNS : list string :=
  [ "Овен"; "Телец"; "Близнецы"; "Рак";
    "Лев"; "Дева"; "Весы"; "Скорпион";
    "Стрелец"; "Козерог"; "Водолей"; "Рыбы" ]%string.

(** ** The store *)

Module Sqlite.

(** CURRENT_TIMESTAMP, as a count of seconds. *)
Definition Timestamp := Z.

(** A row of [users].  [user_id] is the INTEGER PRIMARY KEY, that is the
    rowid of the row; the other columns are nullable, and the two
    timestamps default to CURRENT_TIMESTAMP. *)
Record UserRow : Type := mkUserRow {
  user_id : Z;
  zodiac_sign : option string;
  notification_time : option string;
  created_at : Timestamp;
  updated_at : Timestamp
}.

(** A row of [horoscopes]. *)
Record HoroscopeRow : Type := mkHoroscopeRow {
  id : Z;
  h_user_id : Z;
  h_zodiac_sign : option string;
  prediction : string;
  h_created_at : Timestamp
}.

(** The database behind one connection: both tables in rowid order, the
    AUTOINCREMENT counter of [horoscopes] (its sqlite_sequence entry) and
    the connection's [PRAGMA foreign_keys]. *)
Record Database : Type := mkDatabase {
  users : list UserRow;
  horoscopes : list HoroscopeRow;
  horoscopes_seq : Z;
  foreign_keys : bool
}.

(** [sqlite3.connect] on a file that does not exist yet, followed by the
    two CREATE TABLE IF NOT EXISTS of [_init_db].  The program never
    issues [PRAGMA foreign_keys = ON], so enforcement keeps SQLite's
    default, off. *)
Definition connect_new : Database :=
  {| users := []; horoscopes := []; horoscopes_seq := 0;
     foreign_keys := false |}.

(** [sqlite3.connect] on an existing file with these tables: CREATE TABLE
    IF NOT EXISTS leaves them as they are, and the pragma is per
    connection. *)
Definition connect (t : list UserRow) (h : list HoroscopeRow) (seq : Z)
  : Database :=
  {| users := t; horoscopes := h; horoscopes_seq := seq;
     foreign_keys := false |}.

(** The table is a b-tree on the rowid: a new row goes before the first
    row with a larger key. *)
Fixpoint insert_by_rowid (r : UserRow) (t : list UserRow) : list UserRow :=
  match t with
  | [] => [r]
  | x :: t' =>
      if user_id r <? user_id x then r :: t
      else x :: insert_by_rowid r t'
  end.

Definition has_key (uid : Z) (r : UserRow) : bool := user_id r =? uid.

(** [[
    INSERT OR REPLACE INTO users (user_id, zodiac_sign, updated_at)
    VALUES (?, ?, CURRENT_TIMESTAMP)
    ]]
    REPLACE resolves the conflict on the primary key by deleting the rows
    that hold the key, then the new row is inserted; the columns the
    statement does not name take their defaults: NULL for
    [notification_time], CURRENT_TIMESTAMP for [created_at]. *)
Definition insert_or_replace_user
  (now : Timestamp) (uid : Z) (sign : string) (db : Database) : Database :=
  {| users :=
       insert_by_rowid
         {| user_id := uid; zodiac_sign := Some sign;
            notification_time := None;
            created_at := now; updated_at := now |}
         (filter (fun r => negb (has_key uid r)) (users db));
     horoscopes := horoscopes db;
     horoscopes_seq := horoscopes_seq db;
     foreign_keys := foreign_keys db |}.

(** AUTOINCREMENT: one more than the largest rowid the table ever held. *)
Definition next_horoscope_id (db : Database) : Z :=
  1 + fold_right Z.max (horoscopes_seq db) (map id (horoscopes db)).

Definition user_exists (uid : Z) (db : Database) : bool :=
  existsb (has_key uid) (users db).

(** [[
    INSERT INTO horoscopes (user_id, zodiac_sign, prediction)
    VALUES (?, ?, ?)
    ]]
    FOREIGN KEY(user_id) REFERENCES users(user_id) is checked only when
    the connection has [PRAGMA foreign_keys] on; a violation raises
    sqlite3.IntegrityError and writes nothing. *)
Definition insert_horoscope
  (now : Timestamp) (uid : Z) (sign : option string) (text : string)
  (db : Database) : Result Database :=
  if foreign_keys db && negb (user_exists uid db) then
    Raised (Exception "FOREIGN KEY constraint failed")
  else
    let rowid := next_horoscope_id db in
    Ok {| users := users db;
          horoscopes :=
            horoscopes db ++
            [ {| id := rowid; h_user_id := uid; h_zodiac_sign := sign;
                 prediction := text; h_created_at := now |} ];
          horoscopes_seq := rowid;
          foreign_keys := foreign_keys db |}.

Definition is_not_null (A : Type) (v : option A) : bool :=
  match v with Some _ => true | None => false end.

(** [[
    SELECT user_id, zodiac_sign FROM users
    WHERE notification_time IS NOT NULL
    ]]
    with [fetchall()]: a full scan in rowid order. *)
Definition select_users_for_notification (db : Database)
  : list (Z * option string) :=
  map (fun r => (user_id r, zodiac_sign r))
      (filter (fun r => is_not_null (notification_time r)) (users db)).

End Sqlite.

(** ** Python's [re], as far as the callback patterns need it *)

Module Re.

(** The syntax the two patterns of [HoroscopeBot.run] are written in:
    literal text, alternation, a group, and the anchors [^] and [$]. *)
Inductive regex : Type :=
| Lit (s : string)
| Alt (a b : regex)
| Cat (a b : regex)
| Group (a : regex)
| Bol
| Eol.

(** The pattern text of a regex; the literals of the program hold no
    metacharacter, so they print as themselves. *)
Fixpoint pattern (r : regex) : string :=
  match r with
  | Lit s => s
  | Alt a b => pattern a +++ "|" +++ pattern b
  | Cat a b => pattern a +++ pattern b
  | Group a => "(" +++ pattern a +++ ")"
  | Bol => "^"
  | Eol => "$"
  end.

(** [strip l s]: the rest of [s] after the literal [l], if [s] starts
    with it. *)
Fixpoint strip (l s : string) : option string :=
  match l with
  | EmptyString => Some s
  | String c l' =>
      match s with
      | EmptyString => None
      | String d s' => if Ascii.eqb c d then strip l' s' else None
      end
  end.

(** Without re.MULTILINE, [$] matches at the end of the string and just
    before a newline that is the last character of the string. *)
Definition at_end (s : string) : bool :=
  match s with
  | EmptyString => true
  | String c EmptyString => Ascii.eqb c (ascii_of_nat 10)
  | _ => false
  end.

(** Backtracking matcher in continuation style.  [start] tells whether
    the position is the beginning of the subject, [s] is what is left of
    it, [k] receives the position after the match. *)
Fixpoint run (r : regex) (start : bool) (s : string)
  (k : bool -> string -> bool) : bool :=
  match r with
  | Lit l =>
      match strip l s with
      | Some rest =>
          k (start && match l with EmptyString => true | _ => false end) rest
      | None => false
      end
  | Alt a b => run a start s k || run b start s k
  | Cat a b => run a start s (fun start' s' => run b start' s' k)
  | Group a => run a start s k
  | Bol => start && k start s
  | Eol => at_end s && k start s
  end.

(** [re.match(pattern, s)]: a match that begins at the start of [s]; it
    need not reach the end. *)
Definition re_match (r : regex) (s : string) : bool :=
  run r true s (fun _ _ => true).

(** ["|".join(xs)] as a regex: the alternation of the literals. *)
Fixpoint alternation (xs : list string) : regex :=
  match xs with
  | [] => Lit ""
  | [x] => Lit x
  | x :: xs' => Alt (Lit x) (alternation xs')
  end.

End Re.

(** ** Collaborators and effects *)

Module Effects.

Import Sqlite.

Inductive MessagesRole : Type := SYSTEM | USER.

(** [Messages(role=..., content=...)]. *)
Record Messages : Type := mkMessages {
  role : MessagesRole;
  content : string
}.

(** [InlineKeyboardButton(text, callback_data=...)]; a keyboard is a list
    of rows of buttons. *)
Record InlineKeyboardButton : Type := mkButton {
  text : string;
  callback_data : string
}.

Definition InlineKeyboardMarkup := list (list InlineKeyboardButton).

(** The calls the program makes on the chat transport. *)
Inductive TelegramCall : Type :=
| answer
| edit_message_text (txt : string) (reply_markup : option InlineKeyboardMarkup)
| reply_text (txt : string) (reply_markup : option InlineKeyboardMarkup)
| send_message (chat_id : Z) (txt : string).

(** The statements the program runs on the store. *)
Inductive Statement : Type :=
| InsertOrReplaceUser (uid : Z) (sign : string)
| InsertHoroscope (uid : Z) (sign : option string) (txt : string)
| SelectUsersForNotification.

(** What has happened so far, oldest first: every call on a collaborator
    with its outcome, and every line logged at level ERROR. *)
Inductive Event : Type :=
| EvChat (messages : list Messages) (outcome : Result string)
| EvTelegram (call : TelegramCall) (outcome : Result unit)
| EvSql (stmt : Statement) (outcome : Result unit)
| EvLogError (line : string).

(** The collaborators.  Each is a function of the history, so that two
    calls with the same arguments may differ: nothing is assumed about
    GigaChat's answers, about when the transport or the storage layer
    fails, or about the clock.  [sqlite_fault] stands for every error the
    storage layer can raise apart from the constraint checks of
    [Sqlite]. *)
Record Env : Type := mkEnv {
  giga_chat : list Event -> list Messages -> Result string;
  telegram : list Event -> TelegramCall -> Result unit;
  sqlite_fault : list Event -> Statement -> option Exn;
  current_timestamp : list Event -> Timestamp
}.

Record World : Type := mkWorld {
  db : Database;
  trace : list Event
}.

(** Computations that read and write the world and may raise. *)
Definition M (A : Type) : Type := World -> Result A * World.

Definition ret (A : Type) (a : A) : M A := fun w => (Ok a, w).

Definition bind (A B : Type) (m : M A) (f : A -> M B) : M B :=
  fun w =>
    match m w with
    | (Ok a, w') => f a w'
    | (Raised e, w') => (Raised e, w')
    end.

(** [try: body  except Exception as e: handler(e)]. *)
Definition try_except (A : Type) (body : M A) (handler : Exn -> M A) : M A :=
  fun w =>
    match body w with
    | (Ok a, w') => (Ok a, w')
    | (Raised e, w') => handler e w'
    end.

(** [for x in xs: body(x)]. *)
Fixpoint for_each (A : Type) (xs : list A) (body : A -> M unit) : M unit :=
  match xs with
  | [] => ret tt
  | x :: xs' => bind (body x) (fun _ => for_each xs' body)
  end.

Definition record (ev : Event) (w : World) : World :=
  {| db := db w; trace := trace w ++ [ev] |}.

Section Primitives.

Variable env : Env.

(** [self.giga_client.chat(Chat(messages=..., model="GigaChat"))]
    followed by [response.choices[0].message.content]. *)
Definition chat (messages : list Messages) : M string :=
  fun w =>
    let r := giga_chat env (trace w) messages in
    (r, record (EvChat messages r) w).

Definition call_telegram (c : TelegramCall) : M unit :=
  fun w =>
    let r := telegram env (trace w) c in
    (r, record (EvTelegram c r) w).

(** [logger.error(line)]. *)
Definition logger_error (line : string) : M unit :=
  fun w => (Ok tt, record (EvLogError line) w).

(** [with self.conn: self.conn.execute(stmt)] for a statement that
    writes: the transaction commits when the statement succeeds and
    rolls back when it raises, so a failure leaves the tables as they
    were. *)
Definition execute_write (stmt : Statement)
  (run : Timestamp -> Database -> Result Database) : M unit :=
  fun w =>
    match sqlite_fault env (trace w) stmt with
    | Some e => (Raised e, record (EvSql stmt (Raised e)) w)
    | None =>
        match run (current_timestamp env (trace w)) (db w) with
        | Ok db' =>
            (Ok tt, {| db := db'; trace := trace w ++ [EvSql stmt (Ok tt)] |})
        | Raised e => (Raised e, record (EvSql stmt (Raised e)) w)
        end
    end.

(** The same for a query. *)
Definition execute_read (A : Type) (stmt : Statement)
  (run : Database -> A) : M A :=
  fun w =>
    match sqlite_fault env (trace w) stmt with
    | Some e => (Raised e, record (EvSql stmt (Raised e)) w)
    | None => (Ok (run (db w)), record (EvSql stmt (Ok tt)) w)
    end.

End Primitives.

End Effects.

Declare Scope monad_scope.
Notation "x <- c1 ;; c2" := (Effects.bind c1 (fun x => c2))
  (at level 61, c1 at next level, right associativity) : monad_scope.
Notation "c1 ;; c2" := (Effects.bind c1 (fun _ => c2))
  (at level 61, right associativity) : monad_scope.

(** ** class DatabaseManager *)

Module DatabaseManager.

Import Sqlite Effects.

Section Methods.

Variable env : Env.

Definition update_user_zodiac (user_id : Z) (zodiac_sign : string) : M unit :=
  execute_write env (InsertOrReplaceUser user_id zodiac_sign)
    (fun now d => Ok (insert_or_replace_user now user_id zodiac_sign d)).

Definition save_horoscope
  (user_id : Z) (zodiac_sign : option string) (prediction : string) : M unit :=
  execute_write env (InsertHoroscope user_id zodiac_sign prediction)
    (fun now d => insert_horoscope now user_id zodiac_sign prediction d).

Definition get_users_for_notification : M (list (Z * option string)) :=
  execute_read env SelectUsersForNotification select_users_for_notification.

End Methods.

End DatabaseManager.

(** ** class HoroscopeBot *)

Module HoroscopeBot.

Import Sqlite Effects DatabaseManager.

Local Open Scope monad_scope.

Definition SYSTEM_PROMPT : string :=
  "Ты профессиональный астролог с 20-летним опытом. " +++ LF +++
  "    Составь подробный гороскоп на сегодня для указанного знака зодиака." +++ LF +++
  "    Структура гороскопа:" +++ LF +++
  "    1. Общая характеристика дня" +++ LF +++
  "    2. Любовь и отношения" +++ LF +++
  "    3. Финансы и карьера" +++ LF +++
  "    4. Здоровье" +++ LF +++
  "    5. Советы дня" +++ LF +++
  "    " +++ LF +++
  "    Стиль: позитивный, мотивирующий, с элементами юмора. " +++ LF +++
  "    Избегай общих фраз, сделай прогноз персонализированным." +++ LF +++
  "    Объем: 200-250 слов.".

(** [update.callback_query]: who pressed, and the button's token. *)
Record CallbackQuery : Type := mkCallbackQuery {
  from_user_id : Z;
  data : string
}.

(** The updates the registered handlers look at: a message that starts
    with a command for this bot (the command as it is written, without the
    slash, and the sender's first name), or a callback query; a query that
    carries no data has the empty string for [data]. *)
Inductive Update : Type :=
| Command (name : string) (first_name : string)
| Callback (query : CallbackQuery).

(** The two patterns given to [CallbackQueryHandler]. *)
Definition menu_pattern : Re.regex :=
  Re.Cat Re.Bol (Re.Cat (Re.Lit "get_horoscope") Re.Eol).

Definition sign_pattern : Re.regex :=
  Re.Cat Re.Bol (Re.Cat (Re.Group (Re.alternation ZODIAC_SIGNS)) Re.Eol).

(** [CallbackQueryHandler(callback, pattern=...).check_update]: a query
    that carries data is accepted when [re.match(pattern, data)] finds a
    match; a query that carries none is accepted whatever the pattern. *)
Definition callback_check (pattern : Re.regex) (data : string) : bool :=
  match data with
  | EmptyString => true
  | String _ _ => Re.re_match pattern data
  end.

Section Methods.

Variable env : Env.

Definition start (first_name : string) : M unit :=
  let keyboard :=
    [[ {| text := "Получить гороскоп ♉"; callback_data := "get_horoscope" |} ]] in
  call_telegram env
    (reply_text
       ("✨ Приветствую, " +++ first_name +++ "! Я ваш персональный астролог." +++ LF +++
        "Я могу составить для вас персональный гороскоп на сегодня." +++ LF +++
        "Выберите действие:")
       (Some keyboard)).

Definition show_zodiac_menu : M unit :=
  call_telegram env answer ;;
  let keyboard :=
    map (fun sign => [ {| text := sign; callback_data := sign |} ]) ZODIAC_SIGNS in
  call_telegram env
    (edit_message_text "🔮 Выберите ваш знак зодиака:" (Some keyboard)).

Definition _get_horoscope_prediction (zodiac_sign : option string) : M string :=
  let messages :=
    [ {| role := SYSTEM; content := SYSTEM_PROMPT |};
      {| role := USER; content := "Знак зодиака: " +++ str_text zodiac_sign |} ] in
  chat env messages.

Definition generate_horoscope (query : CallbackQuery) : M unit :=
  call_telegram env answer ;;
  let user_id := from_user_id query in
  let zodiac_sign := data query in
  call_telegram env
    (edit_message_text ("🔍 Составляю гороскоп для " +++ zodiac_sign +++ "...") None) ;;
  try_except
    (prediction <- _get_horoscope_prediction (Some zodiac_sign) ;;
     update_user_zodiac env user_id zodiac_sign ;;
     save_horoscope env user_id (Some zodiac_sign) prediction ;;
     call_telegram env
       (reply_text
          ("♉ Ваш гороскоп на сегодня (" +++ zodiac_sign +++ "):" +++ LF +++ LF +++
           prediction)
          None))
    (fun e =>
       logger_error ("Ошибка генерации гороскопа: " +++ str_exn e) ;;
       call_telegram env (reply_text "⚠️ Произошла ошибка. Попробуйте позже." None)).

(** One turn of the loop of [daily_horoscope_job]. *)
Definition notify (subscriber : Z * option string) : M unit :=
  let '(user_id, zodiac_sign) := subscriber in
  try_except
    (prediction <- _get_horoscope_prediction zodiac_sign ;;
     call_telegram env
       (send_message user_id
          ("🌅 Ваш ежедневный гороскоп (" +++ str_text zodiac_sign +++ "):" +++
           LF +++ LF +++ prediction)) ;;
     save_horoscope env user_id zodiac_sign prediction)
    (fun e =>
       logger_error
         ("Ошибка отправки гороскопа для " +++ str_int user_id +++ ": " +++ str_exn e)).

Definition daily_horoscope_job : M unit :=
  users <- get_users_for_notification env ;;
  for_each users notify.

(** The handlers as [run] registers them, tried in that order; the first
    one whose check accepts the update handles it, and an update that none
    accepts is dropped.  [CommandHandler('start', ...)] lower-cases the
    command before it compares. *)
Definition process_update (u : Update) : M unit :=
  match u with
  | Command name first_name =>
      if String.eqb (lower name) "start" then start first_name else ret tt
  | Callback query =>
      if callback_check menu_pattern (data query) then show_zodiac_menu
      else if callback_check sign_pattern (data query) then generate_horoscope query
      else ret tt
  end.

End Methods.

End HoroscopeBot.

(** ** The running application *)

Module Application.

Import Sqlite Effects DatabaseManager HoroscopeBot.

(** What [run] sets going: updates arrive and are dispatched, and once a
    day the job queue runs [daily_horoscope_job]. *)
Inductive Step : Type :=
| Receive (u : Update)
| DailyRun.

Definition run_step (env : Env) (s : Step) : M unit :=
  match s with
  | Receive u => process_update env u
  | DailyRun => daily_horoscope_job env
  end.

(** The application outlives a handler or a job that raises: it goes on
    with the next step from the world the failed one left. *)
Fixpoint run_steps (env : Env) (steps : list Step) (w : World) : World :=
  match steps with
  | [] => w
  | s :: steps' => run_steps env steps' (snd (run_step env s w))
  end.

(** One committed write of the program on the database. *)
Inductive write : Database -> Database -> Prop :=
| write_user now uid sign d :
    write d (insert_or_replace_user now uid sign d)
| write_horoscope now uid sign txt d d' :
    insert_horoscope now uid sign txt d = Ok d' ->
    write d d'.

(** Any number of them. *)
Inductive writes : Database -> Database -> Prop :=
| writes_nil d : writes d d
| writes_cons d1 d2 d3 : write d1 d2 -> writes d2 d3 -> writes d1 d3.

(** A computation that changes the database by committed writes only. *)
Definition writes_only (A : Type) (m : M A) : Prop :=
  forall w, writes (db w) (db (snd (m w))).

(** The rows of [users] that hold a key. *)
Definition rows_of (uid : Z) (t : list UserRow) : list UserRow :=
  filter (has_key uid) t.

Definition other_rows (uid : Z) (t : list UserRow) : list UserRow :=
  filter (fun r => negb (has_key uid r)) t.

(** [n] calls of [save_horoscope] in a row, one per entry. *)
Definition save_all (env : Env) (calls : list (Z * option string * string))
  : M unit :=
  for_each calls
    (fun c => let '(uid, sign, txt) := c in save_horoscope env uid sign txt).

(** The requests for a generation found in a history. *)
Fixpoint generation_requests (tr : list Event) : list (list Messages) :=
  match tr with
  | [] => []
  | EvChat m _ :: tr' => m :: generation_requests tr'
  | _ :: tr' => generation_requests tr'
  end.

(** The request [_get_horoscope_prediction] sends for a sign. *)
Definition request_for (zodiac_sign : option string) : list Messages :=
  [ {| role := SYSTEM; content := SYSTEM_PROMPT |};
    {| role := USER; content := "Знак зодиака: " +++ str_text zodiac_sign |} ].

(** The calls that raised, and the lines logged, in a history. *)
Fixpoint failures (tr : list Event) : list Exn :=
  match tr with
  | [] => []
  | EvChat _ (Raised e) :: tr' => e :: failures tr'
  | EvTelegram _ (Raised e) :: tr' => e :: failures tr'
  | EvSql _ (Raised e) :: tr' => e :: failures tr'
  | _ :: tr' => failures tr'
  end.

Fixpoint logged (tr : list Event) : list string :=
  match tr with
  | [] => []
  | EvLogError line :: tr' => line :: logged tr'
  | _ :: tr' => logged tr'
  end.

(** The statements that committed, in a history. *)
Fixpoint committed (tr : list Event) : list Statement :=
  match tr with
  | [] => []
  | EvSql stmt (Ok _) :: tr' => stmt :: committed tr'
  | _ :: tr' => committed tr'
  end.

(** The messages and log lines of the two flows, as the f-strings of
    [generate_horoscope] and [daily_horoscope_job] build them. *)
Definition composing (zodiac_sign : string) : TelegramCall :=
  edit_message_text ("🔍 Составляю гороскоп для " +++ zodiac_sign +++ "...") None.

Definition horoscope_reply (zodiac_sign prediction : string) : TelegramCall :=
  reply_text
    ("♉ Ваш гороскоп на сегодня (" +++ zodiac_sign +++ "):" +++ LF +++ LF +++
     prediction)
    None.

Definition apology : TelegramCall :=
  reply_text "⚠️ Произошла ошибка. Попробуйте позже." None.

Definition error_line (e : Exn) : string :=
  "Ошибка генерации гороскопа: " +++ str_exn e.

Definition daily_message
  (user_id : Z) (zodiac_sign : option string) (prediction : string)
  : TelegramCall :=
  send_message user_id
    ("🌅 Ваш ежедневный гороскоп (" +++ str_text zodiac_sign +++ "):" +++
     LF +++ LF +++ prediction).

Definition daily_error_line (user_id : Z) (e : Exn) : string :=
  "Ошибка отправки гороскопа для " +++ str_int user_id +++ ": " +++ str_exn e.

End Application.

(** ** The store contract in the specification's words *)

Module Contract.

Import Sqlite.

Definition non_empty (v : option string) : bool :=
  match v with
  | Some (String _ _) => true
  | _ => false
  end.

(** "[listSubscribers] returns every user that currently has a non-empty
    [zodiac_sign]". *)
Definition listSubscribers (db : Database) : list (Z * option string) :=
  map (fun r => (user_id r, zodiac_sign r))
      (filter (fun r => non_empty (zodiac_sign r)) (users db)).

(** "[upsertPreference] inserts a new preference row if none exists for
    [userId], else replaces [zodiac_sign] and [updated_at] in place". *)
Definition upsertPreference
  (now : Timestamp) (uid : Z) (sign : string) (t : list UserRow)
  : list UserRow :=
  if existsb (has_key uid) t then
    map (fun r =>
           if has_key uid r then
             {| user_id := user_id r; zodiac_sign := Some sign;
                notification_time := notification_time r;
                created_at := created_at r; updated_at := now |}
           else r) t
  else
    insert_by_rowid
      {| user_id := uid; zodiac_sign := Some sign; notification_time := None;
         created_at := now; updated_at := now |} t.

End Contract.

(** ** Concrete worlds *)

Module Scenario.

Import Sqlite Effects HoroscopeBot.

(** Collaborators that never fail: GigaChat answers with a fixed text, and
    the clock advances with every event. *)
Definition calm : Env :=
  {| giga_chat := fun _ _ => Ok "Звёзды благосклонны."%string;
     telegram := fun _ _ => Ok tt;
     sqlite_fault := fun _ _ => None;
     current_timestamp := fun tr => 1000 + Z.of_nat (List.length tr) |}.

Definition is_request_for (sign : string) (m : list Messages) : bool :=
  match m with
  | [_; u] => String.eqb (content u) ("Знак зодиака: " +++ sign)
  | _ => false
  end.

(** GigaChat fails for one sign and answers for the others. *)
Definition failing_for (sign : string) : Env :=
  {| giga_chat := fun _ m =>
       if is_request_for sign m then Raised (Exception "GigaChat: 500")
       else Ok "Звёзды благосклонны."%string;
     telegram := fun _ _ => Ok tt;
     sqlite_fault := fun _ _ => None;
     current_timestamp := fun tr => 1000 + Z.of_nat (List.length tr) |}.

(** GigaChat is down and the transport refuses every [reply_text]. *)
Definition all_down : Env :=
  {| giga_chat := fun _ _ => Raised (Exception "GigaChat: timeout");
     telegram := fun _ c =>
       match c with
       | reply_text _ _ => Raised (Exception "Telegram: timed out")
       | _ => Ok tt
       end;
     sqlite_fault := fun _ _ => None;
     current_timestamp := fun tr => 1000 + Z.of_nat (List.length tr) |}.

(** The storage layer fails on every INSERT INTO horoscopes. *)
Definition history_down : Env :=
  {| giga_chat := fun _ _ => Ok "Звёзды благосклонны."%string;
     telegram := fun _ _ => Ok tt;
     sqlite_fault := fun _ stmt =>
       match stmt with
       | InsertHoroscope _ _ _ => Some (Exception "database is locked")
       | _ => None
       end;
     current_timestamp := fun tr => 1000 + Z.of_nat (List.length tr) |}.

Definition fresh : World := {| db := connect_new; trace := [] |}.

(** A user who chose a sign; nothing ever gave the row a
    [notification_time]. *)
Definition leo : UserRow :=
  {| user_id := 1; zodiac_sign := Some "Лев"%string; notification_time := None;
     created_at := 0; updated_at := 0 |}.

(** A row put into the file from outside the program: a notification time,
    no sign. *)
Definition unsigned : UserRow :=
  {| user_id := 2; zodiac_sign := None; notification_time := Some "09:00"%string;
     created_at := 0; updated_at := 0 |}.

Definition aries : UserRow :=
  {| user_id := 1; zodiac_sign := Some "Овен"%string;
     notification_time := Some "09:00"%string;
     created_at := 100; updated_at := 100 |}.

Definition pisces : UserRow :=
  {| user_id := 1; zodiac_sign := Some "Рыбы"%string;
     notification_time := Some "09:00"%string;
     created_at := 0; updated_at := 0 |}.

Definition taurus : UserRow :=
  {| user_id := 2; zodiac_sign := Some "Телец"%string;
     notification_time := Some "09:00"%string;
     created_at := 0; updated_at := 0 |}.

Definition world_of (t : list UserRow) : World :=
  {| db := connect t [] 0; trace := [] |}.

(** A sign token with a line feed after it. *)
Definition aries_lf : CallbackQuery :=
  {| from_user_id := 42; data := "Овен" +++ LF |}.

End Scenario.

(** ** Startup *)

Module Startup.

Import Effects.

Local Open Scope monad_scope.

(** [raise e]. *)
Definition raise (A : Type) (e : Exn) : M A := fun w => (Raised e, w).
Arguments raise {A} e.

(** The process environment: [os.getenv(var)] is [None] for a variable
    that is not set. *)
Definition Environ := string -> option string.

(** [bool(v)] for what [os.getenv] returns: [None] and the empty string
    are false. *)
Definition truthy (v : option string) : bool :=
  match v with
  | Some (String _ _) => true
  | _ => false
  end.

Definition required_vars : list string :=
  [ "TELEGRAM_BOT_TOKEN"; "GIGACHAT_CREDENTIALS" ]%string.

(** [HoroscopeBot._check_env_vars]. *)
Definition _check_env_vars (os_getenv : Environ) : M unit :=
  let missing_vars :=
    filter (fun var => negb (truthy (os_getenv var))) required_vars in
  match missing_vars with
  | [] => ret tt
  | _ :: _ =>
      logger_error ("Отсутствуют переменные: " +++ String.concat ", " missing_vars) ;;
      raise (Exception "Необходимые переменные окружения не заданы")
  end.

End Startup.

(** ** What a history and a database show *)

Module Observations.

Import Sqlite Effects HoroscopeBot.

(** The callback tokens of the buttons a call puts on the screen. *)
Definition tokens_of (c : TelegramCall) : list string :=
  match c with
  | edit_message_text _ (Some keyboard) | reply_text _ (Some keyboard) =>
      map callback_data (List.concat keyboard)
  | _ => []
  end.

(** The tokens of all the buttons sent in a history. *)
Fixpoint offered_tokens (tr : list Event) : list string :=
  match tr with
  | [] => []
  | EvTelegram c _ :: tr' => tokens_of c ++ offered_tokens tr'
  | _ :: tr' => offered_tokens tr'
  end.

(** The messages delivered to a chat in a history: the [send_message]
    calls that succeeded. *)
Fixpoint delivered (tr : list Event) : list (Z * string) :=
  match tr with
  | [] => []
  | EvTelegram (send_message chat_id txt) (Ok _) :: tr' =>
      (chat_id, txt) :: delivered tr'
  | _ :: tr' => delivered tr'
  end.

(** Every history row belongs to a user that has a row in [users]: what
    FOREIGN KEY(user_id) REFERENCES users(user_id) asks for. *)
Definition referential (d : Database) : Prop :=
  forall h, In h (horoscopes d) -> user_exists (h_user_id h) d = true.

(** The numbers 1, 2, ..., n. *)
Definition one_to (n : nat) : list Z := map Z.of_nat (List.seq 1 n).

(** The user and the sign of a history row. *)
Definition recipient (h : HoroscopeRow) : Z * option string :=
  (h_user_id h, h_zodiac_sign h).

(** Collaborators that work: GigaChat answers every request, the transport
    delivers every call and the storage layer never fails. *)
Definition works (env : Env) : Prop :=
  (forall tr m, exists p, giga_chat env tr m = Ok p) /\
  (forall tr c, telegram env tr c = Ok tt) /\
  (forall tr stmt, sqlite_fault env tr stmt = None).

(** The ways one run of [generate_horoscope] on a query can go: what it
    returns, the database it leaves and the events it adds to the history,
    with what the collaborator of the failing step answered. *)
Inductive on_demand (env : Env) (q : CallbackQuery) (d : Database)
  : Result unit -> Database -> list Event -> Prop :=
| answer_failed e :
    (exists tr, telegram env tr answer = Raised e) ->
    on_demand env q d (Raised e) d [EvTelegram answer (Raised e)]
| placeholder_failed e :
    (exists tr, telegram env tr (Application.composing (data q)) = Raised e) ->
    on_demand env q d (Raised e) d
      [ EvTelegram answer (Ok tt);
        EvTelegram (Application.composing (data q)) (Raised e) ]
| generation_failed e r :
    (exists tr,
        giga_chat env tr (Application.request_for (Some (data q))) = Raised e) ->
    on_demand env q d r d
      [ EvTelegram answer (Ok tt);
        EvTelegram (Application.composing (data q)) (Ok tt);
        EvChat (Application.request_for (Some (data q))) (Raised e);
        EvLogError (Application.error_line e);
        EvTelegram Application.apology r ]
| preference_failed p e r :
    (exists tr,
        sqlite_fault env tr
          (InsertOrReplaceUser (from_user_id q) (data q)) = Some e) ->
    on_demand env q d r d
      [ EvTelegram answer (Ok tt);
        EvTelegram (Application.composing (data q)) (Ok tt);
        EvChat (Application.request_for (Some (data q))) (Ok p);
        EvSql (InsertOrReplaceUser (from_user_id q) (data q)) (Raised e);
        EvLogError (Application.error_line e);
        EvTelegram Application.apology r ]
| history_failed p e r now :
    (exists tr,
        sqlite_fault env tr
          (InsertHoroscope (from_user_id q) (Some (data q)) p) = Some e) ->
    on_demand env q d r
      (insert_or_replace_user now (from_user_id q) (data q) d)
      [ EvTelegram answer (Ok tt);
        EvTelegram (Application.composing (data q)) (Ok tt);
        EvChat (Application.request_for (Some (data q))) (Ok p);
        EvSql (InsertOrReplaceUser (from_user_id q) (data q)) (Ok tt);
        EvSql (InsertHoroscope (from_user_id q) (Some (data q)) p) (Raised e);
        EvLogError (Application.error_line e);
        EvTelegram Application.apology r ]
| reply_failed p e r now now' d' :
    insert_horoscope now' (from_user_id q) (Some (data q)) p
      (insert_or_replace_user now (from_user_id q) (data q) d) = Ok d' ->
    (exists tr,
        telegram env tr (Application.horoscope_reply (data q) p) = Raised e) ->
    on_demand env q d r d'
      [ EvTelegram answer (Ok tt);
        EvTelegram (Application.composing (data q)) (Ok tt);
        EvChat (Application.request_for (Some (data q))) (Ok p);
        EvSql (InsertOrReplaceUser (from_user_id q) (data q)) (Ok tt);
        EvSql (InsertHoroscope (from_user_id q) (Some (data q)) p) (Ok tt);
        EvTelegram (Application.horoscope_reply (data q) p) (Raised e);
        EvLogError (Application.error_line e);
        EvTelegram Application.apology r ]
| replied p now now' d' :
    insert_horoscope now' (from_user_id q) (Some (data q)) p
      (insert_or_replace_user now (from_user_id q) (data q) d) = Ok d' ->
    on_demand env q d (Ok tt) d'
      [ EvTelegram answer (Ok tt);
        EvTelegram (Application.composing (data q)) (Ok tt);
        EvChat (Application.request_for (Some (data q))) (Ok p);
        EvSql (InsertOrReplaceUser (from_user_id q) (data q)) (Ok tt);
        EvSql (InsertHoroscope (from_user_id q) (Some (data q)) p) (Ok tt);
        EvTelegram (Application.horoscope_reply (data q) p) (Ok tt) ].

(** One committed write as the handlers and the job make it: a preference
    for a token [sign_pattern] accepted, or a history row for a user and
    the sign that user's row holds at that moment. *)
Inductive program_write : Database -> Database -> Prop :=
| preference_written now uid sign d :
    Re.re_match sign_pattern sign = true ->
    program_write d (insert_or_replace_user now uid sign d)
| prediction_written now r txt d d' :
    In r (users d) ->
    insert_horoscope now (user_id r) (zodiac_sign r) txt d = Ok d' ->
    program_write d d'.

Inductive program_writes : Database -> Database -> Prop :=
| program_writes_nil d : program_writes d d
| program_writes_cons d1 d2 d3 :
    program_write d1 d2 -> program_writes d2 d3 -> program_writes d1 d3.

(** A token one of the two callback handlers is registered for. *)
Definition handled (token : string) : Prop :=
  token = "get_horoscope"%string \/ In token ZODIAC_SIGNS.

(** An event of the conversation with a user: no [send_message], and only
    buttons whose token is handled. *)
Definition conversational (ev : Event) : Prop :=
  match ev with
  | EvTelegram (send_message _ _) _ => False
  | EvTelegram c _ => Forall handled (tokens_of c)
  | _ => True
  end.

(** An event that shows no button. *)
Definition buttonless (ev : Event) : Prop :=
  match ev with
  | EvTelegram c _ => tokens_of c = []
  | _ => True
  end.

(** A stored sign that [sign_pattern] accepted: one of the twelve signs,
    with or without a line feed after it. *)
Definition sign_token (v : option string) : Prop :=
  exists z, In z ZODIAC_SIGNS /\ (v = Some z \/ v = Some (z +++ LF)).

(** What the rows of a database look like when only the program wrote
    them. *)
Definition kept (d : Database) : Prop :=
  Forall (fun r =>
            Application.rows_of (user_id r) (users d) = [r] /\
            sign_token (zodiac_sign r) /\
            notification_time r = None /\
            created_at r = updated_at r) (users d) /\
  Forall (fun h => sign_token (h_zodiac_sign h)) (horoscopes d).

(** The history numbered 1, 2, ..., with the counter at the last id. *)
Definition numbered (d : Database) : Prop :=
  map id (horoscopes d) = one_to (List.length (horoscopes d)) /\
  horoscopes_seq d = Z.of_nat (List.length (horoscopes d)).

End Observations.

(** ** More concrete worlds *)

Module Cases.

Import Sqlite Effects HoroscopeBot.

(** The transport refuses every call. *)
Definition transport_down : Env :=
  {| giga_chat := fun _ _ => Ok "Звёзды благосклонны."%string;
     telegram := fun _ _ => Raised (Exception "Telegram: timed out");
     sqlite_fault := fun _ _ => None;
     current_timestamp := fun tr => 1000 + Z.of_nat (List.length tr) |}.

(** GigaChat and the store work, and the transport refuses every
    [reply_text]. *)
Definition replies_refused : Env :=
  {| giga_chat := fun _ _ => Ok "Звёзды благосклонны."%string;
     telegram := fun _ c =>
       match c with
       | reply_text _ _ => Raised (Exception "Telegram: timed out")
       | _ => Ok tt
       end;
     sqlite_fault := fun _ _ => None;
     current_timestamp := fun tr => 1000 + Z.of_nat (List.length tr) |}.

Definition leo_pressed : CallbackQuery :=
  {| from_user_id := 1; data := "Лев" |}.

End Cases.

(** ** Proof automation *)

(** Splits a hypothesis that some event of an explicit list is a given
    failure into its cases, and keeps the ones that can be. *)
Ltac which_failure H :=
  simpl in H;
  repeat match type of H with
         | _ \/ _ => destruct H as [H|H]
         | exists _, _ => destruct H as [? H]
         | False => contradiction
         end;
  try discriminate; inversion H; subst; clear H.

(** Runs the except branch of [generate_horoscope] for [e0] with the
    lemma [run] about it, names the events of the run, and settles which
    of them is the failure the hypothesis speaks of. *)
Ltac report_failure run e0 :=
  fold (Application.error_line e0);
  match goal with
  | |- Effects.bind (Effects.logger_error (Application.error_line e0)) _ ?w0 = _ -> _ =>
      let outcome := fresh "outcome" in
      let Hrep := fresh "Hrep" in
      destruct (run e0 w0) as [outcome Hrep]; rewrite Hrep
  end;
  let Hrun := fresh "Hrun" in
  intros Hrun; inversion Hrun; subst;
  cbn [Effects.trace Effects.record Effects.db];
  rewrite <- !app_assoc;
  let H := fresh "H" in
  intros H; apply app_inv_head in H; subst;
  let Hf := fresh "Hf" in
  intros Hf; which_failure Hf.

(** * Properties *)

Import Sqlite Effects DatabaseManager HoroscopeBot Application.

(** The text of [sign_pattern] is the pattern string [run] builds:
    [f'^({"|".join(ZODIAC_SIGNS)})$']. *)
Lemma sign_pattern_text :
  Re.pattern sign_pattern = "^(" +++ String.concat "|" ZODIAC_SIGNS +++ ")$".
Proof. reflexivity. Qed.

Lemma menu_pattern_text : Re.pattern menu_pattern = "^get_horoscope$"%string.
Proof. reflexivity. Qed.

Lemma request_for_eq env sign :
  _get_horoscope_prediction env sign = chat env (request_for sign).
Proof. reflexivity. Qed.

(** A callback check that fails was a pattern that did not match data
    that was there; one that succeeds on data that is there is a match. *)
Lemma callback_check_false p s :
  callback_check p s = false -> s <> ""%string /\ Re.re_match p s = false.
Proof. destruct s; simpl; [discriminate | intros H; now split]. Qed.

Lemma callback_check_data p s :
  s <> ""%string -> callback_check p s = Re.re_match p s.
Proof. destruct s; [contradiction | reflexivity]. Qed.

(** ** The [users] table under INSERT OR REPLACE *)

Section UsersTable.

Implicit Types (r x : UserRow) (t : list UserRow) (p : UserRow -> bool).

Lemma In_insert_by_rowid r x t :
  In x (insert_by_rowid r t) <-> x = r \/ In x t.
Proof.
  induction t as [|y t IH]; simpl.
  - intuition congruence.
  - destruct (user_id r <? user_id y); simpl.
    + intuition congruence.
    + rewrite IH. intuition congruence.
Qed.

Lemma filter_insert_rejected p r t :
  p r = false -> filter p (insert_by_rowid r t) = filter p t.
Proof.
  intros Hr. induction t as [|y t IH]; simpl.
  - now rewrite Hr.
  - destruct (user_id r <? user_id y); simpl.
    + now rewrite Hr.
    + now rewrite IH.
Qed.

Lemma filter_insert_alone p r t :
  p r = true -> (forall x, In x t -> p x = false) ->
  filter p (insert_by_rowid r t) = [r].
Proof.
  intros Hr. induction t as [|y t IH]; simpl; intros Ht.
  - now rewrite Hr.
  - assert (Hy : p y = false) by (apply Ht; now left).
    assert (Hnil : filter p t = []).
    { clear IH. induction t as [|z t IHt]; simpl; [reflexivity|].
      rewrite (Ht z) by (right; now left).
      apply IHt. intros x [Hx|Hx]; apply Ht; [now left | right; now right]. }
    destruct (user_id r <? user_id y); simpl.
    + now rewrite Hr, Hy, Hnil.
    + rewrite Hy. apply IH. intros x Hx. apply Ht. now right.
Qed.

Lemma length_insert_by_rowid r t :
  List.length (insert_by_rowid r t) = S (List.length t).
Proof.
  induction t as [|y t IH]; simpl; [reflexivity|].
  destruct (user_id r <? user_id y); simpl; congruence.
Qed.

Lemma has_key_true uid r : has_key uid r = true <-> user_id r = uid.
Proof. unfold has_key. apply Z.eqb_eq. Qed.

Lemma has_key_false uid r : has_key uid r = false <-> user_id r <> uid.
Proof. unfold has_key. apply Z.eqb_neq. Qed.

(** After the statement the key is held by the new row and by no other. *)
Lemma rows_of_insert_or_replace now uid sign d :
  rows_of uid (users (insert_or_replace_user now uid sign d)) =
  [ {| user_id := uid; zodiac_sign := Some sign; notification_time := None;
       created_at := now; updated_at := now |} ].
Proof.
  unfold rows_of, insert_or_replace_user; simpl.
  apply filter_insert_alone.
  - apply has_key_true. reflexivity.
  - intros x Hx. apply filter_In in Hx. destruct Hx as [_ Hx].
    now apply negb_true_iff in Hx.
Qed.

(** The rows of every other key are the ones that were there. *)
Lemma rows_of_insert_or_replace_other now uid sign d v :
  v <> uid ->
  rows_of v (users (insert_or_replace_user now uid sign d)) =
  rows_of v (users d).
Proof.
  intros Hv. unfold rows_of, insert_or_replace_user; simpl.
  rewrite filter_insert_rejected by (apply has_key_false; simpl; congruence).
  induction (users d) as [|y t IH]; simpl; [reflexivity|].
  destruct (has_key uid y) eqn:Hy; simpl.
  - apply has_key_true in Hy.
    assert (Hvy : has_key v y = false) by (apply has_key_false; congruence).
    now rewrite Hvy.
  - destruct (has_key v y); simpl; now rewrite IH.
Qed.

Lemma other_rows_insert_or_replace now uid sign d :
  other_rows uid (users (insert_or_replace_user now uid sign d)) =
  other_rows uid (users d).
Proof.
  unfold other_rows, insert_or_replace_user; simpl.
  rewrite filter_insert_rejected.
  - induction (users d) as [|y t IH]; simpl; [reflexivity|].
    destruct (has_key uid y) eqn:Hy; simpl; [assumption|].
    rewrite Hy; simpl. now rewrite IH.
  - simpl. unfold has_key; simpl. now rewrite Z.eqb_refl.
Qed.

Lemma In_users_insert_or_replace now uid sign d r :
  In r (users (insert_or_replace_user now uid sign d)) <->
  r = {| user_id := uid; zodiac_sign := Some sign; notification_time := None;
         created_at := now; updated_at := now |} \/
  (In r (users d) /\ user_id r <> uid).
Proof.
  unfold insert_or_replace_user; simpl.
  rewrite In_insert_by_rowid, filter_In, negb_true_iff, has_key_false.
  reflexivity.
Qed.

Lemma In_select_users_for_notification d uid sign :
  In (uid, sign) (select_users_for_notification d) <->
  exists r, In r (users d) /\ user_id r = uid /\ zodiac_sign r = sign /\
            notification_time r <> None.
Proof.
  unfold select_users_for_notification. rewrite in_map_iff. split.
  - intros [r [Heq Hr]]. apply filter_In in Hr. destruct Hr as [Hin Hnn].
    exists r. inversion Heq; subst. repeat split; try assumption.
    destruct (notification_time r); [discriminate | discriminate Hnn].
  - intros [r [Hin [Hu [Hs Hnn]]]]. exists r. split; [congruence|].
    apply filter_In. split; [assumption|].
    destruct (notification_time r); [reflexivity | congruence].
Qed.

End UsersTable.

(** ** What the methods of [DatabaseManager] do in one call *)

Section StoreCalls.

Variable env : Env.

Lemma update_user_zodiac_run uid sign w :
  update_user_zodiac env uid sign w =
  match sqlite_fault env (trace w) (InsertOrReplaceUser uid sign) with
  | Some e =>
      (Raised e, record (EvSql (InsertOrReplaceUser uid sign) (Raised e)) w)
  | None =>
      (Ok tt,
       {| db := insert_or_replace_user (current_timestamp env (trace w))
                  uid sign (db w);
          trace := trace w ++ [EvSql (InsertOrReplaceUser uid sign) (Ok tt)] |})
  end.
Proof. reflexivity. Qed.

Lemma save_horoscope_run uid sign txt w :
  save_horoscope env uid sign txt w =
  match sqlite_fault env (trace w) (InsertHoroscope uid sign txt) with
  | Some e =>
      (Raised e, record (EvSql (InsertHoroscope uid sign txt) (Raised e)) w)
  | None =>
      match insert_horoscope (current_timestamp env (trace w))
              uid sign txt (db w) with
      | Ok d =>
          (Ok tt,
           {| db := d;
              trace := trace w ++ [EvSql (InsertHoroscope uid sign txt) (Ok tt)] |})
      | Raised e =>
          (Raised e, record (EvSql (InsertHoroscope uid sign txt) (Raised e)) w)
      end
  end.
Proof. reflexivity. Qed.

Lemma get_users_for_notification_run w :
  get_users_for_notification env w =
  match sqlite_fault env (trace w) SelectUsersForNotification with
  | Some e => (Raised e, record (EvSql SelectUsersForNotification (Raised e)) w)
  | None =>
      (Ok (select_users_for_notification (db w)),
       record (EvSql SelectUsersForNotification (Ok tt)) w)
  end.
Proof. reflexivity. Qed.

(** With enforcement off the INSERT appends whatever [users] holds. *)
Lemma insert_horoscope_unenforced now uid sign txt d :
  foreign_keys d = false ->
  insert_horoscope now uid sign txt d =
  Ok {| users := users d;
        horoscopes :=
          horoscopes d ++
          [ {| id := next_horoscope_id d; h_user_id := uid;
               h_zodiac_sign := sign; prediction := txt;
               h_created_at := now |} ];
        horoscopes_seq := next_horoscope_id d;
        foreign_keys := false |}.
Proof. intros H. unfold insert_horoscope. rewrite H. reflexivity. Qed.

(** With enforcement on it would refuse a user that has no row. *)
Lemma insert_horoscope_enforced now uid sign txt d :
  foreign_keys d = true -> user_exists uid d = false ->
  insert_horoscope now uid sign txt d =
  Raised (Exception "FOREIGN KEY constraint failed").
Proof. intros H1 H2. unfold insert_horoscope. now rewrite H1, H2. Qed.

Lemma insert_horoscope_appends now uid sign txt d d' :
  insert_horoscope now uid sign txt d = Ok d' ->
  users d' = users d /\
  foreign_keys d' = foreign_keys d /\
  horoscopes d' =
    horoscopes d ++
    [ {| id := next_horoscope_id d; h_user_id := uid; h_zodiac_sign := sign;
         prediction := txt; h_created_at := now |} ].
Proof.
  unfold insert_horoscope.
  destruct (foreign_keys d && negb (user_exists uid d)); [discriminate|].
  intros H. inversion H; subst; simpl. auto.
Qed.

End StoreCalls.

(** ** Committed writes *)

Section Writes.

Lemma writes_one d d' : write d d' -> writes d d'.
Proof. intros H. eapply writes_cons; [exact H | apply writes_nil]. Qed.

Lemma writes_trans d1 d2 d3 : writes d1 d2 -> writes d2 d3 -> writes d1 d3.
Proof.
  induction 1 as [|a b c Hab Hbc IH]; [auto|].
  intros H. eapply writes_cons; [exact Hab | auto].
Qed.

(** A property of databases that every write keeps is kept by any number
    of writes. *)
Lemma writes_keep (P : Database -> Prop) :
  (forall d d', write d d' -> P d -> P d') ->
  forall d d', writes d d' -> P d -> P d'.
Proof.
  intros Hstep d d' H. induction H as [|a b c Hab Hbc IH]; [auto|].
  intros Ha. apply IH. eapply Hstep; eauto.
Qed.

Lemma writes_only_ret A (a : A) : writes_only (ret a).
Proof. intros w. apply writes_nil. Qed.

Lemma writes_only_bind A B (m : M A) (f : A -> M B) :
  writes_only m -> (forall a, writes_only (f a)) -> writes_only (bind m f).
Proof.
  intros Hm Hf w. unfold bind. specialize (Hm w).
  destruct (m w) as [[a|e] w1]; simpl in *.
  - eapply writes_trans; [exact Hm | apply Hf].
  - exact Hm.
Qed.

Lemma writes_only_try_except A (m : M A) (h : Exn -> M A) :
  writes_only m -> (forall e, writes_only (h e)) -> writes_only (try_except m h).
Proof.
  intros Hm Hh w. unfold try_except. specialize (Hm w).
  destruct (m w) as [[a|e] w1]; simpl in *.
  - exact Hm.
  - eapply writes_trans; [exact Hm | apply Hh].
Qed.

Lemma writes_only_for_each A (xs : list A) (body : A -> M unit) :
  (forall x, writes_only (body x)) -> writes_only (for_each xs body).
Proof.
  intros Hb. induction xs as [|x xs IH]; simpl.
  - apply writes_only_ret.
  - apply writes_only_bind; auto.
Qed.

Variable env : Env.

Lemma writes_only_chat m : writes_only (chat env m).
Proof. intros w. apply writes_nil. Qed.

Lemma writes_only_call_telegram c : writes_only (call_telegram env c).
Proof. intros w. apply writes_nil. Qed.

Lemma writes_only_logger_error line : writes_only (logger_error line).
Proof. intros w. apply writes_nil. Qed.

Lemma writes_only_update_user_zodiac uid sign :
  writes_only (update_user_zodiac env uid sign).
Proof.
  intros w. rewrite update_user_zodiac_run.
  destruct (sqlite_fault env (trace w) _); simpl.
  - apply writes_nil.
  - apply writes_one, write_user.
Qed.

Lemma writes_only_save_horoscope uid sign txt :
  writes_only (save_horoscope env uid sign txt).
Proof.
  intros w. rewrite save_horoscope_run.
  destruct (sqlite_fault env (trace w) _); simpl; [apply writes_nil|].
  destruct (insert_horoscope _ uid sign txt (db w)) eqn:E; simpl.
  - eapply writes_one, write_horoscope, E.
  - apply writes_nil.
Qed.

Lemma writes_only_get_users_for_notification :
  writes_only (get_users_for_notification env).
Proof.
  intros w. rewrite get_users_for_notification_run.
  destruct (sqlite_fault env (trace w) _); apply writes_nil.
Qed.

Create HintDb writes.

#[local] Hint Resolve writes_only_ret writes_only_bind writes_only_try_except
  writes_only_for_each writes_only_chat writes_only_call_telegram
  writes_only_logger_error writes_only_update_user_zodiac
  writes_only_save_horoscope writes_only_get_users_for_notification
  : writes.

Lemma writes_only_generate_horoscope q : writes_only (generate_horoscope env q).
Proof.
  unfold generate_horoscope, _get_horoscope_prediction.
  repeat (first [ apply writes_only_bind | apply writes_only_try_except
                | intro ]; auto with writes).
Qed.

Lemma writes_only_notify s : writes_only (notify env s).
Proof.
  destruct s as [uid sign]. unfold notify, _get_horoscope_prediction.
  repeat (first [ apply writes_only_bind | apply writes_only_try_except
                | intro ]; auto with writes).
Qed.

Lemma writes_only_daily_horoscope_job : writes_only (daily_horoscope_job env).
Proof.
  unfold daily_horoscope_job.
  apply writes_only_bind; [auto with writes|].
  intros l. apply writes_only_for_each, writes_only_notify.
Qed.

Lemma writes_only_process_update u : writes_only (process_update env u).
Proof.
  destruct u as [name first|q]; unfold process_update.
  - destruct (String.eqb (lower name) "start"); [|auto with writes].
    unfold start. auto with writes.
  - destruct (callback_check menu_pattern (data q)).
    + unfold show_zodiac_menu. apply writes_only_bind; auto with writes.
    + destruct (callback_check sign_pattern (data q)).
      * apply writes_only_generate_horoscope.
      * auto with writes.
Qed.

Lemma writes_only_run_step s : writes_only (run_step env s).
Proof.
  destruct s; simpl.
  - apply writes_only_process_update.
  - apply writes_only_daily_horoscope_job.
Qed.

Lemma writes_run_steps steps w : writes (db w) (db (run_steps env steps w)).
Proof.
  revert w. induction steps as [|s steps IH]; intros w; simpl.
  - apply writes_nil.
  - eapply writes_trans; [apply writes_only_run_step | apply IH].
Qed.

End Writes.

(** ** Invariants of the database under the program's writes *)

Section Invariants.

(** No write of the program gives a row a [notification_time]. *)
Lemma write_keeps_null_time uid d d' :
  write d d' ->
  (forall r, In r (users d) -> user_id r = uid -> notification_time r = None) ->
  (forall r, In r (users d') -> user_id r = uid -> notification_time r = None).
Proof.
  intros Hw Hd r Hr Hu. destruct Hw as [now v sign d|now v sign txt d d' Hins].
  - apply In_users_insert_or_replace in Hr. destruct Hr as [Hr|[Hr _]].
    + subst r. reflexivity.
    + auto.
  - apply insert_horoscope_appends in Hins. destruct Hins as [Hus _].
    rewrite Hus in Hr. auto.
Qed.

Lemma writes_keep_null_time uid d d' :
  writes d d' ->
  (forall r, In r (users d) -> user_id r = uid -> notification_time r = None) ->
  (forall r, In r (users d') -> user_id r = uid -> notification_time r = None).
Proof.
  intros H.
  apply (writes_keep
           (fun d => forall r, In r (users d) -> user_id r = uid ->
                               notification_time r = None)); [|exact H].
  intros a b Hab. now apply write_keeps_null_time.
Qed.

(** A user none of whose rows has a [notification_time] is not selected. *)
Lemma null_time_not_selected uid d :
  (forall r, In r (users d) -> user_id r = uid -> notification_time r = None) ->
  forall sign, ~ In (uid, sign) (select_users_for_notification d).
Proof.
  intros H sign Hin. apply In_select_users_for_notification in Hin.
  destruct Hin as [r [Hr [Hu [_ Hnn]]]]. apply Hnn. now apply H.
Qed.

(** The history only grows. *)
Lemma write_extends_history d d' :
  write d d' -> exists suffix, horoscopes d' = horoscopes d ++ suffix.
Proof.
  intros [now v sign a|now v sign txt a b Hins].
  - exists []. simpl. now rewrite app_nil_r.
  - apply insert_horoscope_appends in Hins. destruct Hins as [_ [_ Hh]].
    eexists. exact Hh.
Qed.

Lemma writes_extend_history d d' :
  writes d d' -> exists suffix, horoscopes d' = horoscopes d ++ suffix.
Proof.
  induction 1 as [a|a b c Hab Hbc IH].
  - exists []. now rewrite app_nil_r.
  - destruct (write_extends_history Hab) as [s1 H1].
    destruct IH as [s2 H2]. exists (s1 ++ s2).
    now rewrite H2, H1, app_assoc.
Qed.

(** No write touches the pragma. *)
Lemma writes_keep_foreign_keys d d' :
  writes d d' -> foreign_keys d' = foreign_keys d.
Proof.
  induction 1 as [a|a b c Hab Hbc IH]; [reflexivity|].
  rewrite IH. destruct Hab as [now v sign a|now v sign txt a b Hins].
  - reflexivity.
  - now apply insert_horoscope_appends in Hins.
Qed.

(** A key held by at most one row stays so. *)
Lemma write_keeps_key_unique v d d' :
  write d d' ->
  (List.length (rows_of v (users d)) <= 1)%nat ->
  (List.length (rows_of v (users d')) <= 1)%nat.
Proof.
  intros [now uid sign a|now uid sign txt a b Hins] H.
  - destruct (Z.eq_dec v uid) as [->|Hne].
    + rewrite rows_of_insert_or_replace. simpl. lia.
    + now rewrite rows_of_insert_or_replace_other.
  - apply insert_horoscope_appends in Hins. destruct Hins as [Hus _].
    now rewrite Hus.
Qed.

Lemma writes_keep_key_unique v d d' :
  writes d d' ->
  (List.length (rows_of v (users d)) <= 1)%nat ->
  (List.length (rows_of v (users d')) <= 1)%nat.
Proof.
  intros H.
  apply (writes_keep
           (fun d => (List.length (rows_of v (users d)) <= 1)%nat)); [|exact H].
  intros a b Hab. now apply write_keeps_key_unique.
Qed.

End Invariants.

(** ** The preference rows *)

Section Preferences.

(** C1, as amended.  [get_users_for_notification] changes nothing in the
    database and, unless the storage layer fails, returns exactly the
    (user_id, zodiac_sign) pairs of the rows whose [notification_time] is
    not NULL, whatever their [zodiac_sign]; in every state the program
    itself produces from a new database that result is empty. *)
Theorem get_users_for_notification_selects_by_time (env : Env) (w : World) :
  db (snd (get_users_for_notification env w)) = db w /\
  match fst (get_users_for_notification env w) with
  | Ok l =>
      forall uid sign,
        In (uid, sign) l <->
        exists r, In r (users (db w)) /\ user_id r = uid /\
                  zodiac_sign r = sign /\ notification_time r <> None
  | Raised e => sqlite_fault env (trace w) SelectUsersForNotification = Some e
  end /\
  forall env0 steps tr,
    let w' := run_steps env0 steps {| db := connect_new; trace := tr |} in
    fst (get_users_for_notification env w') = Ok [] \/
    exists e, fst (get_users_for_notification env w') = Raised e.
Proof.
  rewrite get_users_for_notification_run. repeat split.
  - destruct (sqlite_fault env (trace w) _); reflexivity.
  - destruct (sqlite_fault env (trace w) _); simpl; [reflexivity|].
    intros uid sign. apply In_select_users_for_notification.
  - intros env0 steps tr w'. rewrite get_users_for_notification_run.
    destruct (sqlite_fault env (trace w') _) as [e|]; simpl.
    + right. now exists e.
    + left. f_equal.
      assert (Hnull : forall uid r, In r (users (db w')) -> user_id r = uid ->
                                    notification_time r = None).
      { intros uid. apply (@writes_keep_null_time uid connect_new).
        - apply (@writes_run_steps env0 steps {| db := connect_new; trace := tr |}).
        - intros r []. }
      destruct (select_users_for_notification (db w')) as [|[uid sign] l] eqn:E;
        [reflexivity|].
      exfalso. apply (@null_time_not_selected uid (db w') (Hnull uid) sign).
      rewrite E. now left.
Qed.

(** C1, the claim as stated fails.  After user 1 chose a sign through the
    bot the user has a non-empty [zodiac_sign] and is not returned; and a
    row with a [notification_time] and no sign is returned. *)
Lemma get_users_for_notification_counterexample :
  let w := run_steps Scenario.calm
             [Receive (Callback {| from_user_id := 1; data := "Лев" |})]
             Scenario.fresh in
  Contract.listSubscribers (db w) = [(1, Some "Лев"%string)] /\
  fst (get_users_for_notification Scenario.calm w) = Ok [] /\
  let w2 := Scenario.world_of [Scenario.leo; Scenario.unsigned] in
  Contract.listSubscribers (db w2) = [(1, Some "Лев"%string)] /\
  fst (get_users_for_notification Scenario.calm w2) = Ok [(2, None)].
Proof. vm_compute. repeat split. Qed.

(** C2.  A successful [update_user_zodiac] leaves the user exactly one row,
    with the sign given and [notification_time] NULL, whatever the row held
    before; and from then on, whatever the program does next,
    [get_users_for_notification] does not return that user. *)
Theorem update_user_zodiac_clears_notification_time
  (env : Env) (uid : Z) (sign : string) (w : World) :
  let w1 := snd (update_user_zodiac env uid sign w) in
  fst (update_user_zodiac env uid sign w) = Ok tt ->
  (exists r, rows_of uid (users (db w1)) = [r] /\
             zodiac_sign r = Some sign /\ notification_time r = None) /\
  forall env1 steps env2 l,
    fst (get_users_for_notification env2 (run_steps env1 steps w1)) = Ok l ->
    forall s, ~ In (uid, s) l.
Proof.
  intros w1 Hok. subst w1. revert Hok. rewrite update_user_zodiac_run.
  destruct (sqlite_fault env (trace w) _) as [e|]; simpl; [discriminate|].
  intros _. split.
  - eexists. split; [apply rows_of_insert_or_replace|]. now split.
  - intros env1 steps env2 l.
    set (w1 := {| db := insert_or_replace_user _ uid sign (db w); trace := _ |}).
    rewrite get_users_for_notification_run.
    destruct (sqlite_fault env2 _ _); simpl; [discriminate|].
    intros Hl. inversion Hl; subst l. clear Hl.
    apply null_time_not_selected.
    apply (@writes_keep_null_time uid (db w1)).
    + apply writes_run_steps.
    + intros r Hr Hu. simpl in Hr.
      apply In_users_insert_or_replace in Hr. destruct Hr as [Hr|[_ Hr]].
      * now subst r.
      * contradiction.
Qed.

Lemma update_user_zodiac_clears_notification_time_witness :
  let w1 := snd (update_user_zodiac Scenario.calm 1 "Дева"
                   (Scenario.world_of [Scenario.aries])) in
  (exists r, rows_of 1 (users (db w1)) = [r] /\
             zodiac_sign r = Some "Дева"%string /\ notification_time r = None) /\
  forall s : option string, ~ In (1, s) [].
Proof.
  pose proof (@update_user_zodiac_clears_notification_time
                Scenario.calm 1 "Дева"%string
                (Scenario.world_of [Scenario.aries]) eq_refl) as [H1 H2].
  split; [exact H1|].
  exact (H2 Scenario.calm [DailyRun] Scenario.calm [] eq_refl).
Defined.

End Preferences.

Section Upsert.

(** What one call of [update_user_zodiac] does to the tables.  Unless the
    storage layer fails (and then nothing changes), the user is left with
    exactly one row, the one the statement inserts: the new sign,
    [updated_at] at the current timestamp, and the defaults for the
    columns the statement does not name; the rows of the other users, in
    their order, and the history are as before. *)
Theorem update_user_zodiac_replaces_row
  (env : Env) (uid : Z) (sign : string) (w : World) :
  let w' := snd (update_user_zodiac env uid sign w) in
  let now := current_timestamp env (trace w) in
  match sqlite_fault env (trace w) (InsertOrReplaceUser uid sign) with
  | None =>
      fst (update_user_zodiac env uid sign w) = Ok tt /\
      rows_of uid (users (db w')) =
        [ {| user_id := uid; zodiac_sign := Some sign;
             notification_time := None;
             created_at := now; updated_at := now |} ] /\
      other_rows uid (users (db w')) = other_rows uid (users (db w)) /\
      horoscopes (db w') = horoscopes (db w)
  | Some e =>
      fst (update_user_zodiac env uid sign w) = Raised e /\ db w' = db w
  end.
Proof.
  intros w' now. subst w' now. rewrite update_user_zodiac_run.
  destruct (sqlite_fault env (trace w) _) as [e|]; simpl.
  - split; reflexivity.
  - repeat split.
    + apply rows_of_insert_or_replace.
    + apply other_rows_insert_or_replace.
Qed.

(** C3, where the code departs from the claim.  A user whose row holds the
    sign "Овен", a notification time and [created_at] 100 selects "Дева"
    at time 1000.  The method is the update of the user's sign, and its
    statement names [zodiac_sign] and [updated_at] only; but INSERT OR
    REPLACE deletes the row first, so the row the code leaves has lost the
    notification time and carries [created_at] 1000, where the update in
    place that the claim describes keeps both. *)
Lemma update_user_zodiac_counterexample :
  let w := Scenario.world_of [Scenario.aries] in
  let w' := snd (update_user_zodiac Scenario.calm 1 "Дева" w) in
  fst (update_user_zodiac Scenario.calm 1 "Дева" w) = Ok tt /\
  users (db w') =
    [ {| user_id := 1; zodiac_sign := Some "Дева"%string;
         notification_time := None;
         created_at := 1000; updated_at := 1000 |} ] /\
  Contract.upsertPreference 1000 1 "Дева" (users (db w)) =
    [ {| user_id := 1; zodiac_sign := Some "Дева"%string;
         notification_time := Some "09:00"%string;
         created_at := 100; updated_at := 1000 |} ] /\
  users (db w') <> Contract.upsertPreference 1000 1 "Дева" (users (db w)).
Proof. vm_compute. repeat split. discriminate. Qed.

(** C5.  Two successful calls of [update_user_zodiac] for one user leave
    that user exactly one row, and it holds the second sign; and a key that
    at most one row held is held by at most one row afterwards, here and
    after anything else the program does. *)
Theorem update_user_zodiac_twice
  (env : Env) (uid : Z) (sign1 sign2 : string) (w : World) :
  let w1 := snd (update_user_zodiac env uid sign1 w) in
  let w2 := snd (update_user_zodiac env uid sign2 w1) in
  fst (update_user_zodiac env uid sign1 w) = Ok tt ->
  fst (update_user_zodiac env uid sign2 w1) = Ok tt ->
  (exists r, rows_of uid (users (db w2)) = [r] /\ zodiac_sign r = Some sign2) /\
  (forall v, (List.length (rows_of v (users (db w))) <= 1)%nat ->
             (List.length (rows_of v (users (db w2))) <= 1)%nat) /\
  (forall env' steps v,
      (List.length (rows_of v (users (db w))) <= 1)%nat ->
      (List.length (rows_of v (users (db (run_steps env' steps w)))) <= 1)%nat).
Proof.
  intros w1 w2 H1 H2. repeat split.
  - subst w2. revert H2. rewrite update_user_zodiac_run.
    destruct (sqlite_fault env (trace w1) _) as [e|]; [discriminate|].
    intros _. cbn [snd db]. eexists.
    split; [apply rows_of_insert_or_replace | reflexivity].
  - intros v Hv. apply (@writes_keep_key_unique v (db w)); [|exact Hv].
    eapply writes_trans; apply writes_only_update_user_zodiac.
  - intros env' steps v Hv.
    apply (@writes_keep_key_unique v (db w)); [|exact Hv].
    apply writes_run_steps.
Qed.

Lemma update_user_zodiac_twice_witness :
  let w2 := snd (update_user_zodiac Scenario.calm 7 "Дева"
                   (snd (update_user_zodiac Scenario.calm 7 "Овен"
                           Scenario.fresh))) in
  (exists r, rows_of 7 (users (db w2)) = [r] /\
             zodiac_sign r = Some "Дева"%string) /\
  (List.length (rows_of 7 (users (db w2))) <= 1)%nat.
Proof.
  pose proof (@update_user_zodiac_twice Scenario.calm 7 "Овен"%string
                "Дева"%string Scenario.fresh eq_refl eq_refl) as [H1 [H2 _]].
  split; [exact H1|].
  apply H2. simpl. lia.
Defined.

End Upsert.

(** ** The history *)

Section History.

Lemma for_each_cons A (x : A) xs (body : A -> M unit) w :
  for_each (x :: xs) body w =
  match body x w with
  | (Ok _, w') => for_each xs body w'
  | (Raised e, w') => (Raised e, w')
  end.
Proof. reflexivity. Qed.

Lemma save_all_run env calls w :
  fst (save_all env calls w) = Ok tt ->
  List.length (horoscopes (db (snd (save_all env calls w)))) =
    (List.length (horoscopes (db w)) + List.length calls)%nat /\
  users (db (snd (save_all env calls w))) = users (db w).
Proof.
  unfold save_all. revert w.
  induction calls as [|[[uid sign] txt] calls IH]; intros w.
  - simpl. intros _. split; [lia | reflexivity].
  - rewrite for_each_cons, save_horoscope_run.
    destruct (sqlite_fault env (trace w) _) as [e|]; [discriminate|].
    destruct (insert_horoscope _ uid sign txt (db w)) as [d|e] eqn:E;
      [|discriminate].
    intros H. apply IH in H. cbn [db] in H. destruct H as [Hlen Hus].
    apply insert_horoscope_appends in E. destruct E as [Hu [_ Hh]].
    rewrite Hlen, Hus, Hh, Hu, length_app. simpl. split; [lia | reflexivity].
Qed.

(** C8.  Whatever the program does, the history it leaves is the history
    it found followed by new rows: no row is changed or removed.  And when
    every one of [n] calls of [save_horoscope] succeeds, the history has
    [n] more rows, [users] is untouched and
    [get_users_for_notification] answers as before. *)
Theorem horoscopes_append_only
  (env : Env) (steps : list Step) (calls : list (Z * option string * string))
  (w : World) :
  (exists suffix,
      horoscopes (db (run_steps env steps w)) = horoscopes (db w) ++ suffix) /\
  let w' := snd (save_all env calls w) in
  (exists suffix, horoscopes (db w') = horoscopes (db w) ++ suffix) /\
  (fst (save_all env calls w) = Ok tt ->
   List.length (horoscopes (db w')) =
     (List.length (horoscopes (db w)) + List.length calls)%nat /\
   users (db w') = users (db w) /\
   forall env' tr,
     fst (get_users_for_notification env' {| db := db w'; trace := tr |}) =
     fst (get_users_for_notification env' {| db := db w; trace := tr |})).
Proof.
  split; [apply writes_extend_history, writes_run_steps|].
  intros w'. split.
  - apply writes_extend_history. subst w'. unfold save_all.
    apply writes_only_for_each. intros [[uid sign] txt].
    apply writes_only_save_horoscope.
  - intros Hok. subst w'.
    destruct (save_all_run env calls w Hok) as [Hlen Hus].
    repeat split; try assumption.
    intros env' tr. rewrite !get_users_for_notification_run; simpl.
    destruct (sqlite_fault env' tr _); simpl; [reflexivity|].
    unfold select_users_for_notification. now rewrite Hus.
Qed.

Lemma horoscopes_append_only_witness :
  let calls := [ (1, Some "Лев"%string, "a"%string);
                 (5, None, "b"%string); (1, Some "Рак"%string, "c"%string) ] in
  let w := Scenario.world_of [Scenario.leo; Scenario.unsigned] in
  let w' := snd (save_all Scenario.calm calls w) in
  List.length (horoscopes (db w')) = 3%nat /\ users (db w') = users (db w).
Proof.
  intros calls w w'.
  pose proof (@horoscopes_append_only Scenario.calm [] calls w) as [_ [_ H]].
  destruct (H eq_refl) as [Hlen [Hus _]].
  split; [exact Hlen | exact Hus].
Defined.

(** C10.  On a connection the program opened, on whatever tables and after
    whatever the program did, [save_horoscope] appends its row for every
    user id, with or without a row in [users], unless the storage layer
    itself fails: the declared foreign key is never enforced. *)
Theorem save_horoscope_needs_no_user_row
  (env0 : Env) (steps : list Step)
  (t : list UserRow) (h : list HoroscopeRow) (seq : Z) (tr : list Event)
  (env : Env) (uid : Z) (sign : option string) (txt : string) :
  let w := run_steps env0 steps {| db := connect t h seq; trace := tr |} in
  let w' := snd (save_horoscope env uid sign txt w) in
  sqlite_fault env (trace w) (InsertHoroscope uid sign txt) = None ->
  fst (save_horoscope env uid sign txt w) = Ok tt /\
  users (db w') = users (db w) /\
  horoscopes (db w') =
    horoscopes (db w) ++
    [ {| id := next_horoscope_id (db w); h_user_id := uid;
         h_zodiac_sign := sign; prediction := txt;
         h_created_at := current_timestamp env (trace w) |} ].
Proof.
  intros w w' Hfault. subst w'. rewrite save_horoscope_run, Hfault.
  assert (Hfk : foreign_keys (db w) = false).
  { subst w.
    rewrite (@writes_keep_foreign_keys (connect t h seq));
      [reflexivity | apply (@writes_run_steps env0 steps (mkWorld _ _))]. }
  rewrite (insert_horoscope_unenforced _ _ _ _ _ Hfk). simpl. auto.
Qed.

Lemma save_horoscope_needs_no_user_row_witness :
  let w := Scenario.fresh in
  let w' := snd (save_horoscope Scenario.calm 99 (Some "Рак"%string) "p" w) in
  user_exists 99 (db w) = false /\
  fst (save_horoscope Scenario.calm 99 (Some "Рак"%string) "p" w) = Ok tt /\
  horoscopes (db w') =
    [ {| id := 1; h_user_id := 99; h_zodiac_sign := Some "Рак"%string;
         prediction := "p"; h_created_at := 1000 |} ].
Proof.
  pose proof (@save_horoscope_needs_no_user_row Scenario.calm [] [] [] 0 []
                Scenario.calm 99 (Some "Рак"%string) "p"%string eq_refl)
    as [H1 [_ H3]].
  split; [reflexivity|]. split; [exact H1 | exact H3].
Defined.

End History.

(** ** One turn of the daily loop *)

Section Broadcast.

Variable env : Env.

(** The four ways a turn can go, by what the collaborators answer. *)
Lemma notify_run uid sign w :
  let tr0 := trace w in
  let ask := request_for sign in
  notify env (uid, sign) w =
  match giga_chat env tr0 ask with
  | Raised e =>
      (Ok tt,
       {| db := db w;
          trace := tr0 ++ [EvChat ask (Raised e);
                           EvLogError (daily_error_line uid e)] |})
  | Ok p =>
      let tr1 := tr0 ++ [EvChat ask (Ok p)] in
      let msg := daily_message uid sign p in
      match telegram env tr1 msg with
      | Raised e =>
          (Ok tt,
           {| db := db w;
              trace := tr0 ++ [EvChat ask (Ok p); EvTelegram msg (Raised e);
                               EvLogError (daily_error_line uid e)] |})
      | Ok _ =>
          let tr2 := tr1 ++ [EvTelegram msg (Ok tt)] in
          let stmt := InsertHoroscope uid sign p in
          let failed e :=
            (Ok tt,
             {| db := db w;
                trace := tr0 ++ [EvChat ask (Ok p); EvTelegram msg (Ok tt);
                                 EvSql stmt (Raised e);
                                 EvLogError (daily_error_line uid e)] |}) in
          match sqlite_fault env tr2 stmt with
          | Some e => failed e
          | None =>
              match insert_horoscope (current_timestamp env tr2)
                      uid sign p (db w) with
              | Raised e => failed e
              | Ok d =>
                  (Ok tt,
                   {| db := d;
                      trace := tr0 ++ [EvChat ask (Ok p); EvTelegram msg (Ok tt);
                                       EvSql stmt (Ok tt)] |})
              end
          end
      end
  end.
Proof.
  intros tr0 ask. subst tr0 ask.
  unfold notify, try_except, bind, _get_horoscope_prediction, chat,
    call_telegram, logger_error, record, daily_message, daily_error_line.
  fold (request_for sign). cbn [trace db fst snd].
  destruct (giga_chat env (trace w) (request_for sign)) as [p|e].
  - destruct (telegram env _ _) as [[]|e].
    + rewrite save_horoscope_run. cbn [trace db].
      destruct (sqlite_fault env _ _) as [e|].
      * cbn [trace db record]. rewrite <- !app_assoc. reflexivity.
      * destruct (insert_horoscope _ uid sign p (db w)) as [d|e].
        -- cbn [trace db record]. rewrite <- !app_assoc. reflexivity.
        -- cbn [trace db record]. rewrite <- !app_assoc. reflexivity.
    + cbn [trace db record]. rewrite <- !app_assoc. reflexivity.
  - cbn [trace db record]. rewrite <- !app_assoc. reflexivity.
Qed.

(** C7.  A turn of the daily loop never raises, and it goes one of four
    ways.  Only in the first is a history row written, and there the
    history shows, in this order, the generation that succeeded, the
    message delivered to the user and the INSERT.  In the other three the
    database is left as it was: the generation failed; or the delivery
    failed, and then no INSERT was tried; or the message was delivered and
    the INSERT failed after it.  So whenever the storage layer fails on the
    INSERT of a turn whose message went out, the message stays delivered
    and unrecorded. *)
Theorem notify_delivers_before_recording
  (uid : Z) (sign : option string) (w : World) :
  let w' := snd (notify env (uid, sign) w) in
  let ask := request_for sign in
  fst (notify env (uid, sign) w) = Ok tt /\
  ((exists p now,
       trace w' = trace w ++ [EvChat ask (Ok p);
                              EvTelegram (daily_message uid sign p) (Ok tt);
                              EvSql (InsertHoroscope uid sign p) (Ok tt)] /\
       insert_horoscope now uid sign p (db w) = Ok (db w')) \/
   (db w' = db w /\
    exists e,
      let line := EvLogError (daily_error_line uid e) in
      trace w' = trace w ++ [EvChat ask (Raised e); line] \/
      (exists p,
          trace w' = trace w ++ [EvChat ask (Ok p);
                                 EvTelegram (daily_message uid sign p) (Raised e);
                                 line]) \/
      (exists p,
          trace w' = trace w ++ [EvChat ask (Ok p);
                                 EvTelegram (daily_message uid sign p) (Ok tt);
                                 EvSql (InsertHoroscope uid sign p) (Raised e);
                                 line]))) /\
  (forall p e,
      let sent := EvTelegram (daily_message uid sign p) (Ok tt) in
      giga_chat env (trace w) ask = Ok p ->
      telegram env (trace w ++ [EvChat ask (Ok p)]) (daily_message uid sign p)
        = Ok tt ->
      sqlite_fault env ((trace w ++ [EvChat ask (Ok p)]) ++ [sent])
        (InsertHoroscope uid sign p) = Some e ->
      In sent (trace w') /\ db w' = db w).
Proof.
  intros w' ask. subst w' ask. rewrite notify_run. cbv zeta.
  destruct (giga_chat env (trace w) (request_for sign)) as [p|e] eqn:Ec.
  - destruct (telegram env _ _) as [[]|e] eqn:Et.
    + destruct (sqlite_fault env _ _) as [e|] eqn:Ef.
      * split; [reflexivity|]. split.
        -- right. split; [reflexivity|].
           exists e. right. right. now exists p.
        -- intros p' e' Hp _ _. inversion Hp; subst p'.
           cbn [snd trace db]. split; [|reflexivity].
           apply in_or_app. right. right. now left.
      * destruct (insert_horoscope _ uid sign p (db w)) as [d|e] eqn:E.
        -- split; [reflexivity|]. split.
           ++ left. exists p. eexists. split; [reflexivity | exact E].
           ++ intros p' e' Hp _ Hf. inversion Hp; subst p'.
              rewrite Ef in Hf. discriminate.
        -- split; [reflexivity|]. split.
           ++ right. split; [reflexivity|].
              exists e. right. right. now exists p.
           ++ intros p' e' Hp _ Hf. inversion Hp; subst p'.
              rewrite Ef in Hf. discriminate.
    + split; [reflexivity|]. split.
      * right. split; [reflexivity|]. exists e. right. left. now exists p.
      * intros p' e' Hp Ht. inversion Hp; subst p'.
        rewrite Et in Ht. discriminate.
  - split; [reflexivity|]. split.
    + right. split; [reflexivity|]. exists e. now left.
    + intros p' e' Hp. discriminate.
Qed.

End Broadcast.

Lemma notify_delivers_before_recording_witness :
  let w := Scenario.world_of [Scenario.taurus] in
  let w' := snd (notify Scenario.history_down (2, Some "Телец"%string) w) in
  In (EvTelegram
        (daily_message 2 (Some "Телец"%string) "Звёзды благосклонны.") (Ok tt))
     (trace w') /\
  db w' = db w.
Proof.
  pose proof (@notify_delivers_before_recording Scenario.history_down 2
                (Some "Телец"%string)
                (Scenario.world_of [Scenario.taurus])) as [_ [_ H]].
  exact (H "Звёзды благосклонны."%string (Exception "database is locked")
           eq_refl eq_refl eq_refl).
Defined.

(** ** The daily run *)

Section DailyRun.

Variable env : Env.

Lemma generation_requests_app a b :
  generation_requests (a ++ b) = generation_requests a ++ generation_requests b.
Proof.
  induction a as [|[m r|c r|s r|l] a IH]; simpl; congruence.
Qed.

Lemma logged_app a b : logged (a ++ b) = logged a ++ logged b.
Proof.
  induction a as [|[m r|c r|s r|l] a IH]; simpl; congruence.
Qed.

Lemma failures_app a b : failures (a ++ b) = failures a ++ failures b.
Proof.
  induction a as [|[m [p|e]|c [u|e]|s [u|e]|l] a IH]; simpl; congruence.
Qed.

(** A turn asks for one generation, and logs each of its failures with the
    user's id. *)
Lemma notify_turn uid sign w :
  exists d events,
    notify env (uid, sign) w = (Ok tt, {| db := d; trace := trace w ++ events |}) /\
    generation_requests events = [request_for sign] /\
    Forall2 (fun line e => line = daily_error_line uid e)
      (logged events) (failures events).
Proof.
  rewrite notify_run. cbv zeta.
  destruct (giga_chat env (trace w) (request_for sign)) as [p|e].
  - destruct (telegram env _ _) as [[]|e].
    + destruct (sqlite_fault env _ _) as [e|].
      * do 2 eexists. split; [reflexivity|]. simpl. auto.
      * destruct (insert_horoscope _ uid sign p (db w)) as [d|e].
        -- do 2 eexists. split; [reflexivity|]. simpl. auto.
        -- do 2 eexists. split; [reflexivity|]. simpl. auto.
    + do 2 eexists. split; [reflexivity|]. simpl. auto.
  - do 2 eexists. split; [reflexivity|]. simpl. auto.
Qed.

(** The loop never raises: it asks for a generation for every subscriber,
    in the order of the list, and every failure has its line in the log. *)
Lemma for_each_notify_run users w :
  exists d events,
    for_each users (notify env) w =
      (Ok tt, {| db := d; trace := trace w ++ events |}) /\
    generation_requests events = map (fun s => request_for (snd s)) users /\
    Forall2 (fun line e => exists uid, In uid (map fst users) /\
                                       line = daily_error_line uid e)
      (logged events) (failures events).
Proof.
  revert w. induction users as [|[uid sign] users IH]; intros w.
  - exists (db w), []. simpl. rewrite app_nil_r. destruct w; simpl.
    repeat split. constructor.
  - rewrite for_each_cons.
    destruct (notify_turn uid sign w) as [d1 [ev1 [Hrun [Hreq Hlog]]]].
    rewrite Hrun.
    destruct (IH {| db := d1; trace := trace w ++ ev1 |})
      as [d2 [ev2 [Hrun2 [Hreq2 Hlog2]]]].
    rewrite Hrun2. exists d2, (ev1 ++ ev2). cbn [trace].
    rewrite app_assoc. split; [reflexivity|]. split.
    + rewrite generation_requests_app, Hreq, Hreq2. reflexivity.
    + rewrite logged_app, failures_app. apply Forall2_app.
      * eapply Forall2_impl; [|exact Hlog].
        intros line e ->. exists uid. split; [now left | reflexivity].
      * eapply Forall2_impl; [|exact Hlog2].
        intros line e [u [Hu ->]]. exists u. split; [now right | reflexivity].
Qed.

(** C4.  The job raises only when the listing of the subscribers itself
    fails, before any turn.  Otherwise it returns normally whatever fails
    inside the turns: a generation is asked for every subscriber listed, in
    order, and every failure is logged with the id of its subscriber.  With
    the subscribers (1, "Рыбы") and (2, "Телец"), a generation that fails
    for "Рыбы" and succeeds for "Телец", and a transport and a store that
    work, the run appends exactly one history row, for user 2. *)
Theorem daily_horoscope_job_isolates_failures (w : World) :
  let w' := snd (daily_horoscope_job env w) in
  let listing := EvSql SelectUsersForNotification in
  match sqlite_fault env (trace w) SelectUsersForNotification with
  | Some e =>
      fst (daily_horoscope_job env w) = Raised e /\
      db w' = db w /\ trace w' = trace w ++ [listing (Raised e)]
  | None =>
      fst (daily_horoscope_job env w) = Ok tt /\
      exists events,
        trace w' = trace w ++ listing (Ok tt) :: events /\
        generation_requests events =
          map (fun s => request_for (snd s))
              (select_users_for_notification (db w)) /\
        Forall2 (fun line e =>
                   exists uid,
                     In uid (map fst (select_users_for_notification (db w))) /\
                     line = daily_error_line uid e)
          (logged events) (failures events)
  end /\
  ((forall tr, exists e,
       giga_chat env tr (request_for (Some "Рыбы"%string)) = Raised e) ->
   (forall tr, exists p,
       giga_chat env tr (request_for (Some "Телец"%string)) = Ok p) ->
   (forall tr c, telegram env tr c = Ok tt) ->
   (forall tr stmt, sqlite_fault env tr stmt = None) ->
   select_users_for_notification (db w) =
     [(1, Some "Рыбы"%string); (2, Some "Телец"%string)] ->
   fst (daily_horoscope_job env w) = Ok tt /\
   exists row,
     horoscopes (db w') = horoscopes (db w) ++ [row] /\
     h_user_id row = 2 /\ h_zodiac_sign row = Some "Телец"%string).
Proof.
  intros w' listing. subst w' listing. split.
  - unfold daily_horoscope_job, bind. rewrite get_users_for_notification_run.
    destruct (sqlite_fault env (trace w) _) as [e|].
    + repeat split.
    + destruct (for_each_notify_run (select_users_for_notification (db w))
                  (record (EvSql SelectUsersForNotification (Ok tt)) w))
        as [d [events [Hrun [Hreq Hlog]]]].
      rewrite Hrun. split; [reflexivity|]. exists events. cbn [snd trace record].
      rewrite <- app_assoc. repeat split; assumption.
  - intros Hfail Hgen Htg Hsql Hsubs.
    assert (Hexists : user_exists 2 (db w) = true).
    { assert (Hin : In (2, Some "Телец"%string)
                      (select_users_for_notification (db w)))
        by (rewrite Hsubs; right; now left).
      apply In_select_users_for_notification in Hin.
      destruct Hin as [r [Hr [Hu _]]].
      apply existsb_exists. exists r. split; [exact Hr|].
      now apply has_key_true. }
    unfold daily_horoscope_job, bind. rewrite get_users_for_notification_run.
    rewrite Hsql, Hsubs, for_each_cons.
    rewrite notify_run. cbv zeta. cbn [trace db record].
    destruct (Hfail (trace w ++ [EvSql SelectUsersForNotification (Ok tt)]))
      as [e He].
    rewrite He. cbv iota beta.
    rewrite for_each_cons, notify_run. cbv zeta. cbn [trace db].
    match goal with
    | |- context [giga_chat env ?tr (request_for (Some "Телец"%string))] =>
        destruct (Hgen tr) as [p Hp]; rewrite Hp
    end.
    rewrite Htg, Hsql.
    unfold insert_horoscope. rewrite Hexists, andb_false_r.
    cbn [for_each ret fst snd db horoscopes].
    split; [reflexivity|]. eexists. split; [reflexivity|]. split; reflexivity.
Qed.

End DailyRun.

Lemma daily_horoscope_job_isolates_failures_witness :
  let w := Scenario.world_of [Scenario.pisces; Scenario.taurus] in
  let w' := snd (daily_horoscope_job (Scenario.failing_for "Рыбы") w) in
  fst (daily_horoscope_job (Scenario.failing_for "Рыбы") w) = Ok tt /\
  exists row,
    horoscopes (db w') = horoscopes (db w) ++ [row] /\
    h_user_id row = 2 /\ h_zodiac_sign row = Some "Телец"%string.
Proof.
  pose proof (@daily_horoscope_job_isolates_failures
                (Scenario.failing_for "Рыбы")
                (Scenario.world_of [Scenario.pisces; Scenario.taurus]))
    as [_ H].
  apply H.
  - intros tr. eexists. reflexivity.
  - intros tr. eexists. reflexivity.
  - intros tr c. reflexivity.
  - intros tr stmt. reflexivity.
  - reflexivity.
Defined.

(** ** The on-demand flow *)

Section OnDemand.
Variable env : Env.

Lemma bind_run A B (m : M A) (f : A -> M B) w :
  bind m f w =
  match m w with
  | (Ok a, w') => f a w'
  | (Raised e, w') => (Raised e, w')
  end.
Proof. reflexivity. Qed.

Lemma try_except_run A (m : M A) (h : Exn -> M A) w :
  try_except m h w =
  match m w with
  | (Ok a, w') => (Ok a, w')
  | (Raised e, w') => h e w'
  end.
Proof. reflexivity. Qed.

Lemma call_telegram_inv c w r w1 :
  call_telegram env c w = (r, w1) -> w1 = record (EvTelegram c r) w.
Proof. unfold call_telegram. intros H. inversion H. reflexivity. Qed.

Lemma chat_inv m w r w1 :
  chat env m w = (r, w1) -> w1 = record (EvChat m r) w.
Proof. unfold chat. intros H. inversion H. reflexivity. Qed.

Lemma update_user_zodiac_inv uid sign w r w1 :
  update_user_zodiac env uid sign w = (r, w1) ->
  let stmt := InsertOrReplaceUser uid sign in
  (r = Ok tt /\
   w1 = {| db := insert_or_replace_user (current_timestamp env (trace w))
                   uid sign (db w);
           trace := trace w ++ [EvSql stmt (Ok tt)] |}) \/
  (exists e, r = Raised e /\ w1 = record (EvSql stmt (Raised e)) w).
Proof.
  rewrite update_user_zodiac_run.
  destruct (sqlite_fault env (trace w) _) as [e|]; intros H; inversion H.
  - right. now exists e.
  - now left.
Qed.

Lemma save_horoscope_inv uid sign txt w r w1 :
  save_horoscope env uid sign txt w = (r, w1) ->
  let stmt := InsertHoroscope uid sign txt in
  (r = Ok tt /\
   exists d,
     insert_horoscope (current_timestamp env (trace w)) uid sign txt (db w)
       = Ok d /\
     w1 = {| db := d; trace := trace w ++ [EvSql stmt (Ok tt)] |}) \/
  (exists e, r = Raised e /\ w1 = record (EvSql stmt (Raised e)) w).
Proof.
  rewrite save_horoscope_run.
  destruct (sqlite_fault env (trace w) _) as [e|].
  - intros H; inversion H. right. now exists e.
  - destruct (insert_horoscope _ uid sign txt (db w)) as [d|e] eqn:E;
      intros H; inversion H.
    + left. split; [reflexivity|]. now exists d.
    + right. now exists e.
Qed.

(** The except branch: the line goes to the log, then the apology is
    tried, and its outcome is the outcome of the handler. *)
Lemma report_run e w :
  exists outcome,
    bind (logger_error (error_line e)) (fun _ => call_telegram env apology) w =
    (outcome,
     {| db := db w;
        trace := trace w ++ [EvLogError (error_line e);
                             EvTelegram apology outcome] |}).
Proof.
  eexists. unfold bind, logger_error, call_telegram, record. cbn [trace db].
  rewrite <- app_assoc. reflexivity.
Qed.

(** C6, as amended.  When the generation or a storage call of a request
    fails with [e], the handler logs the line for [e] and then tries the
    apology, and nothing else follows the failing step: no statement is
    run after it.  The handler returns what sending the apology returns,
    so it returns normally exactly when the apology is delivered.  The
    history is as before; [users] is as before too, unless the failing step
    is the INSERT INTO horoscopes, which comes after the preference was
    written. *)
Theorem generate_horoscope_reports_failure
  (q : CallbackQuery) (w : World) (e : Exn) (events : list Event) :
  let uid := from_user_id q in
  let sign := data q in
  let w' := snd (generate_horoscope env q w) in
  trace w' = trace w ++ events ->
  (In (EvChat (request_for (Some sign)) (Raised e)) events \/
   exists stmt, In (EvSql stmt (Raised e)) events) ->
  exists before failed outcome,
    events = before ++ [failed; EvLogError (error_line e);
                        EvTelegram apology outcome] /\
    failures before = [] /\ failures [failed] = [e] /\
    fst (generate_horoscope env q w) = outcome /\
    horoscopes (db w') = horoscopes (db w) /\
    ((committed before = [] /\ db w' = db w) \/
     (exists now p,
         committed before = [InsertOrReplaceUser uid sign] /\
         failed = EvSql (InsertHoroscope uid (Some sign) p) (Raised e) /\
         db w' = insert_or_replace_user now uid sign (db w))).
Proof.
  intros uid sign w'. subst uid sign w'.
  destruct (generate_horoscope env q w) as [r w'] eqn:Hrun. cbn [fst snd].
  revert Hrun. unfold generate_horoscope, _get_horoscope_prediction.
  fold (request_for (Some (data q))). fold (composing (data q)).
  fold apology.
  rewrite bind_run.
  destruct (call_telegram env answer w) as [[[]|e1] w1] eqn:E1;
    apply call_telegram_inv in E1; subst w1.
  2:{ intros Hrun; inversion Hrun; subst. cbn [trace record].
      intros H. apply app_inv_head in H. subst events.
      intros Hf. which_failure Hf. }
  rewrite bind_run.
  destruct (call_telegram env (composing (data q)) _) as [[[]|e2] w2] eqn:E2;
    apply call_telegram_inv in E2; subst w2.
  2:{ intros Hrun; inversion Hrun; subst. cbn [trace record].
      rewrite <- app_assoc. intros H. apply app_inv_head in H. subst events.
      intros Hf. which_failure Hf. }
  rewrite try_except_run, bind_run.
  destruct (chat env (request_for (Some (data q))) _) as [[p|e3] w3] eqn:E3;
    apply chat_inv in E3; subst w3.
  2:{ report_failure report_run e3.
      eexists [_; _], _, _. cbn [app].
      repeat split. left. split; reflexivity. }
  rewrite bind_run.
  destruct (update_user_zodiac env _ _ _) as [r4 w4] eqn:E4.
  apply update_user_zodiac_inv in E4. cbv zeta in E4.
  destruct E4 as [[-> ->]|[e4 [-> ->]]].
  2:{ cbv iota beta. report_failure report_run e4.
      eexists [_; _; _], _, _. cbn [app].
      repeat split. left. split; reflexivity. }
  rewrite bind_run.
  destruct (save_horoscope env _ _ _ _) as [r5 w5] eqn:E5.
  apply save_horoscope_inv in E5. cbv zeta in E5.
  destruct E5 as [[-> [d [Hins ->]]]|[e5 [-> ->]]].
  2:{ cbv iota beta. report_failure report_run e5.
      eexists [_; _; _; _], _, _. cbn [app].
      repeat split. right. do 2 eexists. repeat split. }
  match goal with
  | |- context [call_telegram env ?c ?w0] =>
      destruct (call_telegram env c w0) as [[[]|e6] w6] eqn:E6;
      apply call_telegram_inv in E6; subst w6
  end.
  - intros Hrun; inversion Hrun; subst. cbn [trace record db].
    rewrite <- !app_assoc. intros H. apply app_inv_head in H. subst.
    intros Hf. which_failure Hf.
  - cbv iota beta. report_failure report_run e6.
Qed.
End OnDemand.

Lemma generate_horoscope_reports_failure_witness :
  let e := Exception "GigaChat: 500" in
  exists before failed outcome,
    [ EvTelegram answer (Ok tt);
      EvTelegram (composing "Лев") (Ok tt);
      EvChat (request_for (Some "Лев"%string)) (Raised e);
      EvLogError (error_line e);
      EvTelegram apology (Ok tt) ] =
    before ++ [failed; EvLogError (error_line e); EvTelegram apology outcome] /\
    failures before = [] /\ failures [failed] = [e] /\
    outcome = Ok tt.
Proof.
  intros e.
  destruct (@generate_horoscope_reports_failure (Scenario.failing_for "Лев")
              {| from_user_id := 1; data := "Лев" |} Scenario.fresh e
              [ EvTelegram answer (Ok tt);
                EvTelegram (composing "Лев") (Ok tt);
                EvChat (request_for (Some "Лев"%string)) (Raised e);
                EvLogError (error_line e);
                EvTelegram apology (Ok tt) ]
              eq_refl (or_introl (or_intror (or_intror (or_introl eq_refl)))))
    as [before [failed [outcome [H1 [H2 [H3 [H4 _]]]]]]].
  exists before, failed, outcome. repeat split; try assumption.
  symmetry. exact H4.
Defined.

(** C6, the claim as stated fails.  GigaChat is down, so the generation of
    the request fails; the handler logs it and tries the apology, the
    transport refuses the apology, and that exception leaves the handler. *)
Lemma generate_horoscope_counterexample :
  let q := {| from_user_id := 1; data := "Лев" |} in
  let run := generate_horoscope Scenario.all_down q Scenario.fresh in
  failures (trace (snd run)) =
    [Exception "GigaChat: timeout"; Exception "Telegram: timed out"] /\
  logged (trace (snd run)) = [error_line (Exception "GigaChat: timeout")] /\
  fst run = Raised (Exception "Telegram: timed out").
Proof. vm_compute. repeat split. Qed.

(** ** Dispatch of callback queries *)

Section Patterns.

Lemma append_empty_r s : s +++ "" = s.
Proof. induction s as [|c s IH]; simpl; congruence. Qed.

Lemma strip_Some l s rest : Re.strip l s = Some rest <-> s = l +++ rest.
Proof.
  revert s. induction l as [|c l IH]; intros s; simpl.
  - split; [intros H; now inversion H | intros ->; reflexivity].
  - destruct s as [|d s]; [split; discriminate|].
    destruct (Ascii.eqb c d) eqn:E.
    + apply Ascii.eqb_eq in E. subst d. rewrite IH.
      split; [intros ->; reflexivity | intros H; now inversion H].
    + apply Ascii.eqb_neq in E. split; [discriminate|].
      intros H. inversion H. congruence.
Qed.

Lemma at_end_iff s : Re.at_end s = true <-> s = ""%string \/ s = LF.
Proof.
  destruct s as [|c [|d s]]; simpl.
  - split; [now left | reflexivity].
  - rewrite Ascii.eqb_eq. unfold LF. split.
    + intros ->. now right.
    + intros [H|H]; [discriminate | now inversion H].
  - split; [discriminate|]. unfold LF. intros [H|H]; discriminate.
Qed.

(** An alternation of literals matches where one of the literals does. *)
Lemma run_alternation xs start s k :
  xs <> [] ->
  Re.run (Re.alternation xs) start s k =
  existsb (fun x => Re.run (Re.Lit x) start s k) xs.
Proof.
  induction xs as [|x [|y xs] IH]; intros Hne.
  - contradiction.
  - simpl. now rewrite orb_false_r.
  - change (Re.alternation (x :: y :: xs))
      with (Re.Alt (Re.Lit x) (Re.alternation (y :: xs))).
    cbn [Re.run existsb]. now rewrite IH.
Qed.

(** The tokens [sign_pattern] accepts: a sign, or a sign and a line feed. *)
Lemma re_match_sign_pattern s :
  Re.re_match sign_pattern s = true <->
  exists z, In z ZODIAC_SIGNS /\ (s = z \/ s = z +++ LF).
Proof.
  unfold Re.re_match, sign_pattern. cbn [Re.run andb].
  rewrite run_alternation by discriminate.
  rewrite existsb_exists. split.
  - intros [z [Hin H]]. exists z. split; [exact Hin|].
    cbn [Re.run] in H. destruct (Re.strip z s) as [rest|] eqn:E; [|discriminate].
    apply strip_Some in E. rewrite andb_true_r in H. apply at_end_iff in H.
    destruct H as [->| ->]; [left; now rewrite append_empty_r in E | now right].
  - intros [z [Hin H]]. exists z. split; [exact Hin|]. cbn [Re.run].
    assert (E : exists rest, Re.strip z s = Some rest /\ Re.at_end rest = true).
    { destruct H as [->| ->].
      - exists ""%string. split; [|reflexivity].
        apply strip_Some. now rewrite append_empty_r.
      - exists LF. split; [|reflexivity]. now apply strip_Some. }
    destruct E as [rest [-> Hend]]. now rewrite Hend.
Qed.

(** A token neither pattern accepts is dropped: nothing is called, nothing
    is written, nothing is logged. *)
Lemma process_update_unrecognized env q w :
  data q <> ""%string ->
  Re.re_match menu_pattern (data q) = false ->
  Re.re_match sign_pattern (data q) = false ->
  process_update env (Callback q) w = (Ok tt, w).
Proof.
  intros H0 H1 H2. unfold process_update.
  now rewrite !callback_check_data, H1, H2.
Qed.

(** C9, where the code departs from the claim.  The token "Овен" followed
    by a line feed is none of the twelve signs, and it is no menu token;
    [sign_pattern] accepts it, because [$] also matches before a final
    newline, so the update goes to [generate_horoscope]: a generation is
    asked for that token and both tables are written with it.  The tokens
    the pattern accepts are the twelve signs and the twelve signs followed
    by one line feed, and no others. *)
Theorem sign_pattern_accepts_final_newline :
  let q := Scenario.aries_lf in
  let w' := snd (process_update Scenario.calm (Callback q) Scenario.fresh) in
  ~ In (data q) ZODIAC_SIGNS /\
  Re.re_match menu_pattern (data q) = false /\
  Re.re_match sign_pattern (data q) = true /\
  process_update Scenario.calm (Callback q) Scenario.fresh =
    generate_horoscope Scenario.calm q Scenario.fresh /\
  generation_requests (trace w') = [request_for (Some (data q))] /\
  committed (trace w') =
    [ InsertOrReplaceUser 42 (data q);
      InsertHoroscope 42 (Some (data q)) "Звёзды благосклонны." ] /\
  map zodiac_sign (users (db w')) = [Some (data q)] /\
  map h_zodiac_sign (horoscopes (db w')) = [Some (data q)] /\
  forall s,
    Re.re_match sign_pattern s = true <->
    exists z, In z ZODIAC_SIGNS /\ (s = z \/ s = z +++ LF).
Proof.
  intros q w'. split.
  - vm_compute. intros H.
    repeat (destruct H as [H|H]; [discriminate H|]). exact H.
  - split; [reflexivity|]. split; [reflexivity|].
    split; [reflexivity|]. split; [reflexivity|].
    split; [reflexivity|]. split; [reflexivity|].
    split; [reflexivity|]. exact re_match_sign_pattern.
Qed.

End Patterns.

(** * Further properties of the code *)

(** ** The runs of the on-demand flow and what the program writes *)

Import Observations.

Section OnDemandRuns.
Variable env : Env.

Lemma user_exists_after_replace now uid sign d :
  user_exists uid (insert_or_replace_user now uid sign d) = true.
Proof.
  unfold user_exists. apply existsb_exists. eexists. split.
  - apply In_users_insert_or_replace. left. reflexivity.
  - apply has_key_true. reflexivity.
Qed.

Lemma call_telegram_answer c w r w1 :
  call_telegram env c w = (r, w1) -> telegram env (trace w) c = r.
Proof. unfold call_telegram. intros H. now inversion H. Qed.

Lemma chat_answer m w r w1 :
  chat env m w = (r, w1) -> giga_chat env (trace w) m = r.
Proof. unfold chat. intros H. now inversion H. Qed.

Lemma generate_horoscope_on_demand q w :
  exists events,
    on_demand env q (db w) (fst (generate_horoscope env q w))
      (db (snd (generate_horoscope env q w))) events /\
    trace (snd (generate_horoscope env q w)) = trace w ++ events.
Proof.
  destruct (generate_horoscope env q w) as [r w'] eqn:Hrun. cbn [fst snd].
  revert Hrun. unfold generate_horoscope, _get_horoscope_prediction.
  fold (request_for (Some (data q))). fold (composing (data q)).
  fold apology.
  rewrite bind_run.
  destruct (call_telegram env answer w) as [[[]|e1] w1] eqn:E1;
    pose proof (call_telegram_answer E1) as A1;
    apply call_telegram_inv in E1; subst w1.
  2:{ intros Hrun; inversion Hrun; subst. eexists. split.
      - apply answer_failed. eauto.
      - reflexivity. }
  rewrite bind_run.
  destruct (call_telegram env (composing (data q)) _) as [[[]|e2] w2] eqn:E2;
    pose proof (call_telegram_answer E2) as A2;
    apply call_telegram_inv in E2; subst w2.
  2:{ intros Hrun; inversion Hrun; subst. eexists. split.
      - apply placeholder_failed. eauto.
      - cbn [trace record]. now rewrite <- app_assoc. }
  rewrite try_except_run, bind_run.
  destruct (chat env (request_for (Some (data q))) _) as [[p|e3] w3] eqn:E3;
    pose proof (chat_answer E3) as A3;
    apply chat_inv in E3; subst w3.
  2:{ fold (error_line e3).
      match goal with
      | |- bind _ _ ?w0 = _ -> _ =>
          destruct (report_run env e3 w0) as [outcome Hrep]; rewrite Hrep
      end.
      intros Hrun; inversion Hrun; subst. eexists. split.
      - apply generation_failed. eauto.
      - cbn [trace record]. now rewrite <- !app_assoc. }
  rewrite bind_run.
  destruct (update_user_zodiac env _ _ _) as [r4 w4] eqn:E4.
  pose proof E4 as A4. rewrite update_user_zodiac_run in A4.
  apply update_user_zodiac_inv in E4. cbv zeta in E4.
  destruct E4 as [[-> ->]|[e4 [-> ->]]].
  2:{ cbv iota beta. fold (error_line e4).
      match goal with
      | |- bind _ _ ?w0 = _ -> _ =>
          destruct (report_run env e4 w0) as [outcome Hrep]; rewrite Hrep
      end.
      intros Hrun; inversion Hrun; subst. eexists. split.
      - eapply preference_failed with (p := p).
        destruct (sqlite_fault env _ _) as [e|] eqn:F in A4;
          inversion A4; subst. eauto.
      - cbn [trace record]. now rewrite <- !app_assoc. }
  clear A4. rewrite bind_run.
  destruct (save_horoscope env _ _ _ _) as [r5 w5] eqn:E5.
  pose proof E5 as A5. rewrite save_horoscope_run in A5.
  apply save_horoscope_inv in E5. cbv zeta in E5.
  destruct E5 as [[-> [d [Hins ->]]]|[e5 [-> ->]]].
  2:{ cbv iota beta. fold (error_line e5).
      match goal with
      | |- bind _ _ ?w0 = _ -> _ =>
          destruct (report_run env e5 w0) as [outcome Hrep]; rewrite Hrep
      end.
      intros Hrun; inversion Hrun; subst. eexists. split.
      - cbn [db]. eapply history_failed with (p := p).
        cbn [trace db] in A5.
        destruct (sqlite_fault env _ _) as [e|] eqn:F in A5.
        + inversion A5; subst. eauto.
        + unfold insert_horoscope in A5.
          rewrite user_exists_after_replace, andb_false_r in A5.
          discriminate.
      - cbn [trace record]. now rewrite <- !app_assoc. }
  clear A5. fold (horoscope_reply (data q) p).
  match goal with
  | |- context [call_telegram env ?c ?w0] =>
      destruct (call_telegram env c w0) as [[[]|e6] w6] eqn:E6;
      pose proof (call_telegram_answer E6) as A6;
      apply call_telegram_inv in E6; subst w6
  end.
  - intros Hrun; inversion Hrun; subst. eexists. split.
    + cbn [db record]. eapply replied. exact Hins.
    + cbn [trace record]. now rewrite <- !app_assoc.
  - cbv iota beta. fold (error_line e6).
    match goal with
    | |- bind _ _ ?w0 = _ -> _ =>
        destruct (report_run env e6 w0) as [outcome Hrep]; rewrite Hrep
    end.
    intros Hrun; inversion Hrun; subst. eexists. split.
    + cbn [db record]. eapply reply_failed; [exact Hins | eauto].
    + cbn [trace record]. now rewrite <- !app_assoc.
Qed.

(** *** What the program writes *)

Lemma program_writes_one d d' : program_write d d' -> program_writes d d'.
Proof. intros H. eapply program_writes_cons; [exact H | apply program_writes_nil]. Qed.

Lemma program_writes_trans d1 d2 d3 :
  program_writes d1 d2 -> program_writes d2 d3 -> program_writes d1 d3.
Proof.
  induction 1 as [|a b c Hab Hbc IH]; [auto|].
  intros H. eapply program_writes_cons; [exact Hab | auto].
Qed.

Lemma program_writes_keep (P : Database -> Prop) :
  (forall d d', program_write d d' -> P d -> P d') ->
  forall d d', program_writes d d' -> P d -> P d'.
Proof.
  intros Hstep d d' H. induction H as [|a b c Hab Hbc IH]; [auto|].
  intros Ha. apply IH. eapply Hstep; eauto.
Qed.

Lemma generate_horoscope_program_writes q w :
  Re.re_match sign_pattern (data q) = true ->
  program_writes (db w) (db (snd (generate_horoscope env q w))).
Proof.
  intros Hm. destruct (generate_horoscope_on_demand q w) as [events [H _]].
  inversion H; subst; try apply program_writes_nil.
  - apply program_writes_one. apply preference_written. exact Hm.
  - eapply program_writes_cons; [apply preference_written; exact Hm|].
    apply program_writes_one.
    eapply (@prediction_written now'
              {| user_id := from_user_id q; zodiac_sign := Some (data q);
                 notification_time := None; created_at := now;
                 updated_at := now |}).
    + apply In_users_insert_or_replace. now left.
    + eassumption.
  - eapply program_writes_cons; [apply preference_written; exact Hm|].
    apply program_writes_one.
    eapply (@prediction_written now'
              {| user_id := from_user_id q; zodiac_sign := Some (data q);
                 notification_time := None; created_at := now;
                 updated_at := now |}).
    + apply In_users_insert_or_replace. now left.
    + eassumption.
Qed.

Lemma process_update_program_writes u w :
  program_writes (db w) (db (snd (process_update env u w))).
Proof.
  destruct u as [name first|q]; unfold process_update.
  - destruct (String.eqb (lower name) "start"); apply program_writes_nil.
  - destruct (callback_check menu_pattern (data q)) eqn:Hmenu.
    + unfold show_zodiac_menu. rewrite bind_run.
      destruct (call_telegram env answer w) as [[[]|e] w1] eqn:E;
        apply call_telegram_inv in E; subst w1; apply program_writes_nil.
    + destruct (callback_check sign_pattern (data q)) eqn:Hm.
      * apply callback_check_false in Hmenu. destruct Hmenu as [Hdata _].
        rewrite (callback_check_data _ Hdata) in Hm.
        now apply generate_horoscope_program_writes.
      * apply program_writes_nil.
Qed.

(** A turn of the loop for a subscriber that has its row. *)
Lemma notify_program_writes r w :
  In r (users (db w)) ->
  program_writes (db w) (db (snd (notify env (user_id r, zodiac_sign r) w))) /\
  users (db (snd (notify env (user_id r, zodiac_sign r) w))) = users (db w).
Proof.
  intros Hr. rewrite notify_run. cbv zeta.
  destruct (giga_chat env (trace w) _) as [p|e];
    [|split; [apply program_writes_nil | reflexivity]].
  destruct (telegram env _ _) as [[]|e];
    [|split; [apply program_writes_nil | reflexivity]].
  destruct (sqlite_fault env _ _) as [e|];
    [split; [apply program_writes_nil | reflexivity]|].
  destruct (insert_horoscope _ _ _ p (db w)) as [d|e] eqn:E;
    [|split; [apply program_writes_nil | reflexivity]].
  cbn [snd db]. split.
  - apply program_writes_one. eapply prediction_written; eassumption.
  - now apply insert_horoscope_appends in E.
Qed.

Lemma for_each_notify_program_writes rows w :
  (forall r, In r rows -> In r (users (db w))) ->
  let subscribers := map (fun r => (user_id r, zodiac_sign r)) rows in
  program_writes (db w) (db (snd (for_each subscribers (notify env) w))) /\
  users (db (snd (for_each subscribers (notify env) w))) = users (db w).
Proof.
  revert w. induction rows as [|r rows IH]; intros w Hrows; cbv zeta; cbn [map].
  - split; [apply program_writes_nil | reflexivity].
  - rewrite for_each_cons.
    destruct (@notify_program_writes r w) as [Hw Hu]; [apply Hrows; now left|].
    destruct (notify env (user_id r, zodiac_sign r) w) as [[[]|e] w1] eqn:E;
      cbn [snd] in *.
    + destruct (IH w1) as [Hw2 Hu2].
      { intros x Hx. rewrite Hu. apply Hrows. now right. }
      split; [eapply program_writes_trans; eassumption | congruence].
    + split; assumption.
Qed.

Lemma daily_horoscope_job_program_writes w :
  program_writes (db w) (db (snd (daily_horoscope_job env w))).
Proof.
  unfold daily_horoscope_job. rewrite bind_run, get_users_for_notification_run.
  destruct (sqlite_fault env (trace w) _) as [e|]; [apply program_writes_nil|].
  unfold select_users_for_notification.
  apply (@for_each_notify_program_writes
           (filter (fun r => is_not_null (notification_time r)) (users (db w)))
           (record (EvSql SelectUsersForNotification (Ok tt)) w)).
  intros r Hr. apply filter_In in Hr. apply Hr.
Qed.

Lemma run_steps_program_writes steps w :
  program_writes (db w) (db (run_steps env steps w)).
Proof.
  revert w. induction steps as [|s steps IH]; intros w; simpl.
  - apply program_writes_nil.
  - eapply program_writes_trans; [|apply IH].
    destruct s; simpl;
      [apply process_update_program_writes
      | apply daily_horoscope_job_program_writes].
Qed.

End OnDemandRuns.

(** ** The on-demand flow, step by step *)

Lemma append_inj_r s a b : s +++ a = s +++ b -> a = b.
Proof.
  induction s as [|c s IH]; simpl; intros H; [exact H|].
  injection H as H. auto.
Qed.

Lemma horoscope_reply_inj sign p1 p2 :
  horoscope_reply sign p1 = horoscope_reply sign p2 -> p1 = p2.
Proof.
  unfold horoscope_reply. intros H. injection H as H.
  repeat apply append_inj_r in H. now injection H.
Qed.

Section OnDemandFlow.

Variable env : Env.

(** X1.  With collaborators that work, [generate_horoscope] returns
    normally and has done, in this order: answered the query, shown the
    placeholder, asked for one generation, written the user's preference
    (the user's only row, with the sign pressed), appended one history row
    for that user, sign and prediction, and replied with the prediction.
    This holds whether or not foreign keys are enforced, since the
    preference is written before the history row. *)
Theorem generate_horoscope_serves_request (q : CallbackQuery) (w : World) :
  works env ->
  let uid := from_user_id q in
  let sign := data q in
  let w' := snd (generate_horoscope env q w) in
  fst (generate_horoscope env q w) = Ok tt /\
  exists p now row,
    rows_of uid (users (db w')) =
      [ {| user_id := uid; zodiac_sign := Some sign; notification_time := None;
           created_at := now; updated_at := now |} ] /\
    other_rows uid (users (db w')) = other_rows uid (users (db w)) /\
    horoscopes (db w') = horoscopes (db w) ++ [row] /\
    recipient row = (uid, Some sign) /\ prediction row = p /\
    trace w' = trace w ++
      [ EvTelegram answer (Ok tt);
        EvTelegram (composing sign) (Ok tt);
        EvChat (request_for (Some sign)) (Ok p);
        EvSql (InsertOrReplaceUser uid sign) (Ok tt);
        EvSql (InsertHoroscope uid (Some sign) p) (Ok tt);
        EvTelegram (horoscope_reply sign p) (Ok tt) ].
Proof.
  intros [Hchat [Htg Hsql]] uid sign w'. subst uid sign w'.
  destruct (generate_horoscope_on_demand env q w) as [events [H Htr]].
  inversion H as [e [tr F]|e [tr F]|e r [tr F]|p e r [tr F]|p e r now [tr F]
                 |p e r now now' d' Hins [tr F]|p now now' d' Hins];
    try (rewrite ?Htg, ?Hsql in F; discriminate F).
  - destruct (Hchat tr (request_for (Some (data q)))) as [p Hp].
    rewrite Hp in F. discriminate F.
  - split; [reflexivity|]. exists p, now. 
    apply insert_horoscope_appends in Hins. destruct Hins as [Hu [_ Hh]].
    eexists. rewrite Hu, Hh. repeat split.
    + apply rows_of_insert_or_replace.
    + apply other_rows_insert_or_replace.
    + rewrite Htr. congruence.
Qed.

(** X2.  When [query.answer()] or the placeholder edit raises, that
    exception leaves [generate_horoscope] at once: no generation is asked
    for, nothing is written and nothing is logged. *)
Theorem generate_horoscope_stops_before_try
  (q : CallbackQuery) (w : World) (e : Exn) (events : list Event) :
  let w' := snd (generate_horoscope env q w) in
  trace w' = trace w ++ events ->
  In (EvTelegram answer (Raised e)) events \/
  In (EvTelegram (composing (data q)) (Raised e)) events ->
  fst (generate_horoscope env q w) = Raised e /\
  db w' = db w /\
  generation_requests events = [] /\ logged events = [] /\
  failures events = [e].
Proof.
  intros w'. subst w'.
  destruct (generate_horoscope_on_demand env q w) as [events0 [H Htr]].
  rewrite Htr. intros Heq. apply app_inv_head in Heq. subst events0.
  inversion H; subst events; intros [Hin|Hin];
    try (unfold apology, horoscope_reply, composing in Hin; simpl in Hin;
         repeat match type of Hin with
                | _ \/ _ => destruct Hin as [Hin|Hin]
                | False => contradiction
                end;
         discriminate Hin).
  - destruct Hin as [Hin|[]]. inversion Hin; subst. repeat split.
  - destruct Hin as [Hin|[Hin|[]]]; [discriminate Hin|].
    inversion Hin; subst. repeat split.
Qed.

(** X3.  When the reply that carries the prediction is refused, the
    preference and the history row written before it stay: the history
    then holds a prediction the user did not receive.  The failure is
    logged and the apology is tried, and its outcome is what the handler
    returns. *)
Theorem generate_horoscope_keeps_rows_when_reply_fails
  (q : CallbackQuery) (w : World) (p : string) (e : Exn)
  (events : list Event) :
  let uid := from_user_id q in
  let sign := data q in
  let w' := snd (generate_horoscope env q w) in
  trace w' = trace w ++ events ->
  In (EvTelegram (horoscope_reply sign p) (Raised e)) events ->
  committed events =
    [InsertOrReplaceUser uid sign; InsertHoroscope uid (Some sign) p] /\
  (exists row,
      horoscopes (db w') = horoscopes (db w) ++ [row] /\
      recipient row = (uid, Some sign) /\ prediction row = p) /\
  (exists r, rows_of uid (users (db w')) = [r] /\ zodiac_sign r = Some sign) /\
  logged events = [error_line e] /\
  exists before,
    events = before ++ [EvTelegram apology (fst (generate_horoscope env q w))].
Proof.
  intros uid sign w'. subst uid sign w'.
  destruct (generate_horoscope_on_demand env q w) as [events0 [H Htr]].
  rewrite Htr. intros Heq. apply app_inv_head in Heq. subst events0.
  inversion H as [e0 [tr F]|e0 [tr F]|e0 r [tr F]|p0 e0 r [tr F]
                 |p0 e0 r now [tr F]
                 |p0 e0 r now now' d' Hins [tr F]|p0 now now' d' Hins];
    subst events; intros Hin.
  1-5, 7: exfalso; unfold apology, horoscope_reply, composing in Hin;
    simpl in Hin;
    repeat match type of Hin with
           | _ \/ _ => destruct Hin as [Hin|Hin]
           | False => contradiction
           end;
    discriminate Hin.
  assert (Hpe : p0 = p /\ e0 = e).
  { simpl in Hin.
    repeat destruct Hin as [Hin|Hin]; try contradiction;
      try (unfold apology, horoscope_reply, composing in Hin; simpl in Hin;
           discriminate Hin).
    injection Hin as Hr He. split; [|exact He].
    apply append_inj_r in Hr. now injection Hr. }
  destruct Hpe as [-> ->].
  apply insert_horoscope_appends in Hins. destruct Hins as [Hu [_ Hh]].
  rewrite Hu, Hh. repeat split.
  - eexists. repeat split.
  - eexists. split; [apply rows_of_insert_or_replace | reflexivity].
  - eexists [_; _; _; _; _; _; _]. cbn [app]. reflexivity.
Qed.

End OnDemandFlow.

Lemma calm_works : works Scenario.calm.
Proof.
  repeat split.
  - intros tr m. eexists. reflexivity.
Qed.

Lemma generate_horoscope_serves_request_witness :
  fst (generate_horoscope Scenario.calm Cases.leo_pressed Scenario.fresh) = Ok tt /\
  exists row,
    horoscopes (db (snd (generate_horoscope Scenario.calm Cases.leo_pressed
                           Scenario.fresh))) = [row] /\
    recipient row = (1, Some "Лев"%string).
Proof.
  destruct (@generate_horoscope_serves_request Scenario.calm Cases.leo_pressed
              Scenario.fresh calm_works)
    as [Hok [p [now [row [_ [_ [Hh [Hr _]]]]]]]].
  split; [exact Hok|]. exists row. split; [exact Hh | exact Hr].
Defined.

Lemma generate_horoscope_stops_before_try_witness :
  let run := generate_horoscope Cases.transport_down Cases.leo_pressed
               Scenario.fresh in
  fst run = Raised (Exception "Telegram: timed out") /\
  db (snd run) = db Scenario.fresh.
Proof.
  destruct (@generate_horoscope_stops_before_try Cases.transport_down
              Cases.leo_pressed Scenario.fresh
              (Exception "Telegram: timed out")
              [EvTelegram answer (Raised (Exception "Telegram: timed out"))]
              eq_refl (or_introl (or_introl eq_refl)))
    as [H1 [H2 _]].
  split; [exact H1 | exact H2].
Defined.

Lemma generate_horoscope_keeps_rows_when_reply_fails_witness :
  let run := generate_horoscope Cases.replies_refused Cases.leo_pressed
               Scenario.fresh in
  exists row,
    horoscopes (db (snd run)) = horoscopes (db Scenario.fresh) ++ [row] /\
    recipient row = (1, Some "Лев"%string) /\
    prediction row = "Звёзды благосклонны."%string.
Proof.
  pose (e := Exception "Telegram: timed out").
  destruct (@generate_horoscope_keeps_rows_when_reply_fails
              Cases.replies_refused Cases.leo_pressed Scenario.fresh
              "Звёзды благосклонны." e
              [ EvTelegram answer (Ok tt);
                EvTelegram (composing "Лев") (Ok tt);
                EvChat (request_for (Some "Лев"%string))
                  (Ok "Звёзды благосклонны."%string);
                EvSql (InsertOrReplaceUser 1 "Лев") (Ok tt);
                EvSql (InsertHoroscope 1 (Some "Лев"%string)
                         "Звёзды благосклонны.") (Ok tt);
                EvTelegram (horoscope_reply "Лев" "Звёзды благосклонны.")
                  (Raised e);
                EvLogError (error_line e);
                EvTelegram apology (Raised e) ]
              eq_refl
              (or_intror (or_intror (or_intror (or_intror (or_intror
                 (or_introl eq_refl)))))))
    as [_ [H _]].
  exact H.
Defined.

(** ** Dispatch, buttons and the broadcast from a new database *)

(** *** From a new database *)

Lemma job_without_subscribers env w :
  (forall r, In r (users (db w)) -> notification_time r = None) ->
  daily_horoscope_job env w =
  match sqlite_fault env (trace w) SelectUsersForNotification with
  | Some e => (Raised e, record (EvSql SelectUsersForNotification (Raised e)) w)
  | None => (Ok tt, record (EvSql SelectUsersForNotification (Ok tt)) w)
  end.
Proof.
  intros Hnull. unfold daily_horoscope_job.
  rewrite bind_run, get_users_for_notification_run.
  destruct (sqlite_fault env (trace w) _) as [e|]; [reflexivity|].
  assert (Hsel : select_users_for_notification (db w) = []).
  { destruct (select_users_for_notification (db w)) as [|[uid sign] l] eqn:E;
      [reflexivity|].
    exfalso. apply (@null_time_not_selected uid (db w)) with (sign := sign).
    - intros r Hr _. now apply Hnull.
    - rewrite E. now left. }
  now rewrite Hsel.
Qed.


Section Dispatch.




Variable env : Env.


Lemma Forall_handled_signs : Forall handled ZODIAC_SIGNS.
Proof. apply Forall_forall. intros t Ht. now right. Qed.

Lemma on_demand_conversational q d r d' events :
  on_demand env q d r d' events -> Forall conversational events.
Proof.
  intros H. inversion H; subst;
    repeat first [ exact (Forall_nil conversational)
                 | apply Forall_cons
                 | exact (Forall_nil handled)
                 | exact I ].
Qed.

(** What one update adds to the history. *)
Lemma process_update_events u w :
  exists events,
    trace (snd (process_update env u w)) = trace w ++ events /\
    Forall conversational events.
Proof.
  destruct u as [name first|q]; unfold process_update.
  - destruct (String.eqb (lower name) "start").
    + eexists. split; [reflexivity|].
      constructor; [|constructor].
      constructor; [now left | constructor].
    + exists []. now rewrite app_nil_r.
  - destruct (callback_check menu_pattern (data q)).
    + unfold show_zodiac_menu. rewrite bind_run.
      destruct (call_telegram env answer w) as [[[]|e] w1] eqn:E;
        apply call_telegram_inv in E; subst w1.
      * eexists. split; [cbn [snd trace call_telegram record];
                         rewrite <- app_assoc; reflexivity|].
        constructor; [exact (Forall_nil handled)|].
        constructor; [exact Forall_handled_signs | constructor].
      * eexists. split; [reflexivity|].
        constructor; [exact (Forall_nil handled) | constructor].
    + destruct (callback_check sign_pattern (data q)).
      * destruct (generate_horoscope_on_demand env q w) as [events [H Htr]].
        exists events. split; [exact Htr|].
        eapply on_demand_conversational; eassumption.
      * exists []. now rewrite app_nil_r.
Qed.


Lemma offered_tokens_app a b :
  offered_tokens (a ++ b) = offered_tokens a ++ offered_tokens b.
Proof.
  induction a as [|[m r|c r|st r|l] a IH]; simpl; auto.
  now rewrite IH, app_assoc.
Qed.

Lemma conversational_offers events :
  Forall conversational events -> Forall handled (offered_tokens events).
Proof.
  induction 1 as [|[m r|c r|st r|l] events Hev Hevs IH]; simpl; auto.
  apply Forall_app. split; [|exact IH].
  destruct c; simpl in *; auto; contradiction.
Qed.

Lemma buttonless_offers events :
  Forall buttonless events -> offered_tokens events = [].
Proof.
  induction 1 as [|[m r|c r|st r|l] events Hev Hevs IH]; simpl; auto.
  simpl in Hev. now rewrite Hev.
Qed.

(** A turn of the daily loop shows no button. *)
Lemma notify_buttonless uid sign w :
  exists events,
    trace (snd (notify env (uid, sign) w)) = trace w ++ events /\
    Forall buttonless events.
Proof.
  rewrite notify_run. cbv zeta.
  destruct (giga_chat env (trace w) (request_for sign)) as [p|e].
  - destruct (telegram env _ _) as [[]|e].
    + destruct (sqlite_fault env _ _) as [e|].
      * eexists. split; [reflexivity|]. repeat constructor.
      * destruct (insert_horoscope _ uid sign p (db w)) as [d|e];
          (eexists; split; [reflexivity|]; repeat constructor).
    + eexists. split; [reflexivity|]. repeat constructor.
  - eexists. split; [reflexivity|]. repeat constructor.
Qed.

Lemma for_each_notify_buttonless users w :
  exists events,
    trace (snd (for_each users (notify env) w)) = trace w ++ events /\
    Forall buttonless events.
Proof.
  revert w. induction users as [|[uid sign] users IH]; intros w.
  - exists []. simpl. now rewrite app_nil_r.
  - rewrite for_each_cons.
    destruct (notify_buttonless uid sign w) as [ev1 [H1 F1]].
    destruct (notify env (uid, sign) w) as [[[]|e] w1]; cbn [snd] in *.
    + destruct (IH w1) as [ev2 [H2 F2]]. exists (ev1 ++ ev2).
      rewrite H2, H1, app_assoc. split; [reflexivity|].
      apply Forall_app. now split.
    + exists ev1. now split.
Qed.

Lemma daily_horoscope_job_buttonless w :
  exists events,
    trace (snd (daily_horoscope_job env w)) = trace w ++ events /\
    Forall buttonless events.
Proof.
  unfold daily_horoscope_job. rewrite bind_run, get_users_for_notification_run.
  destruct (sqlite_fault env (trace w) _) as [e|].
  - eexists. split; [reflexivity|]. repeat constructor.
  - destruct (for_each_notify_buttonless
                (select_users_for_notification (db w))
                (record (EvSql SelectUsersForNotification (Ok tt)) w))
      as [events [H F]].
    eexists. rewrite H. cbn [trace record]. rewrite <- app_assoc.
    split; [reflexivity|]. constructor; [exact I | exact F].
Qed.

(** The handler a handled token is dispatched to. *)
Lemma handled_dispatch token :
  handled token ->
  forall env' uid,
    let q := {| from_user_id := uid; data := token |} in
    process_update env' (Callback q) =
    if String.eqb token "get_horoscope" then show_zodiac_menu env'
    else generate_horoscope env' q.
Proof.
  intros [->|H] env' uid; [reflexivity|].
  simpl in H.
  repeat (destruct H as [H|H]; [subst token; reflexivity|]).
  contradiction.
Qed.

(** X5.  Every button the program puts on a screen, in any run, carries a
    token a handler is registered for: "get_horoscope", which is dispatched
    to [show_zodiac_menu], or one of the twelve signs, which is dispatched
    to [generate_horoscope] with that sign.  No button leads to a dropped
    update. *)
Theorem offered_buttons_are_handled (steps : list Step) (w : World) :
  exists events,
    trace (run_steps env steps w) = trace w ++ events /\
    forall token,
      In token (offered_tokens events) ->
      handled token /\
      forall env' uid,
        let q := {| from_user_id := uid; data := token |} in
        process_update env' (Callback q) =
        if String.eqb token "get_horoscope" then show_zodiac_menu env'
        else generate_horoscope env' q.
Proof.
  assert (H : exists events,
             trace (run_steps env steps w) = trace w ++ events /\
             Forall handled (offered_tokens events)).
  { revert w. induction steps as [|s steps IH]; intros w.
    - exists []. simpl. rewrite app_nil_r. split; [reflexivity | constructor].
    - cbn [run_steps].
      assert (Hs : exists ev1,
                 trace (snd (run_step env s w)) = trace w ++ ev1 /\
                 Forall handled (offered_tokens ev1)).
      { destruct s as [u|]; cbn [run_step].
        - destruct (process_update_events u w) as [ev [Ht Hc]].
          exists ev. split; [exact Ht | now apply conversational_offers].
        - destruct (daily_horoscope_job_buttonless w) as [ev [Ht Hb]].
          exists ev. split; [exact Ht|].
          rewrite (buttonless_offers Hb). constructor. }
      destruct Hs as [ev1 [H1 F1]].
      destruct (IH (snd (run_step env s w))) as [ev2 [H2 F2]].
      exists (ev1 ++ ev2). rewrite H2, H1, app_assoc.
      split; [reflexivity|]. rewrite offered_tokens_app.
      apply Forall_app. now split. }
  destruct H as [events [Ht Hf]]. exists events. split; [exact Ht|].
  intros token Hin. rewrite Forall_forall in Hf.
  split; [now apply Hf | apply handled_dispatch; now apply Hf].
Qed.

(** X4.  An update that is not a callback query with a sign token (a sign,
    with or without a final line feed) never reaches GigaChat, the store or
    the error log: commands, the menu token and unknown tokens leave the
    database as it is, ask for no generation, run no statement and log
    nothing. *)
Theorem process_update_spares_store (u : Update) (w : World) :
  (forall q z, u = Callback q -> In z ZODIAC_SIGNS ->
               data q <> z /\ data q <> z +++ LF) ->
  let w' := snd (process_update env u w) in
  db w' = db w /\
  exists events,
    trace w' = trace w ++ events /\
    generation_requests events = [] /\ logged events = [] /\
    forall stmt r, ~ In (EvSql stmt r) events.
Proof.
  intros Hu w'. subst w'. destruct u as [name first|q]; unfold process_update.
  - destruct (String.eqb (lower name) "start").
    + split; [reflexivity|]. eexists. split; [reflexivity|].
      repeat split. intros stmt r [H|[]]. discriminate H.
    + split; [reflexivity|]. exists []. rewrite app_nil_r.
      repeat split. intros stmt r [].
  - destruct (callback_check menu_pattern (data q)) eqn:Hmenu.
    + unfold show_zodiac_menu. rewrite bind_run.
      destruct (call_telegram env answer w) as [[[]|e] w1] eqn:E;
        apply call_telegram_inv in E; subst w1.
      * split; [reflexivity|]. eexists.
        split; [cbn [snd trace call_telegram record];
                rewrite <- app_assoc; reflexivity|].
        repeat split. intros stmt r [H|[H|[]]]; discriminate H.
      * split; [reflexivity|]. eexists. split; [reflexivity|].
        repeat split. intros stmt r [H|[]]. discriminate H.
    + destruct (callback_check sign_pattern (data q)) eqn:Hs.
      * exfalso. apply callback_check_false in Hmenu.
        destruct Hmenu as [Hdata _].
        rewrite (callback_check_data _ Hdata) in Hs.
        apply re_match_sign_pattern in Hs.
        destruct Hs as [z [Hz Hd]].
        destruct (Hu q z eq_refl Hz) as [H1 H2]. destruct Hd; contradiction.
      * split; [reflexivity|]. exists []. rewrite app_nil_r.
        repeat split. intros stmt r [].
Qed.

Lemma null_time_kept s w :
  (forall r, In r (users (db w)) -> notification_time r = None) ->
  forall r, In r (users (db (snd (run_step env s w)))) ->
            notification_time r = None.
Proof.
  intros Hnull r Hr.
  apply (@writes_keep_null_time (user_id r) (db w)
           (db (snd (run_step env s w)))); auto.
  apply writes_only_run_step.
Qed.

Lemma run_steps_conversational steps w :
  (forall r, In r (users (db w)) -> notification_time r = None) ->
  (forall r, In r (users (db (run_steps env steps w))) ->
             notification_time r = None) /\
  exists events,
    trace (run_steps env steps w) = trace w ++ events /\
    Forall conversational events.
Proof.
  revert w. induction steps as [|s steps IH]; intros w Hnull.
  - split; [exact Hnull|]. exists []. simpl. rewrite app_nil_r.
    split; [reflexivity | constructor].
  - cbn [run_steps].
    destruct (IH (snd (run_step env s w)) (null_time_kept s w Hnull))
      as [Hnull' [ev2 [H2 F2]]].
    split; [exact Hnull'|].
    assert (Hs : exists ev1,
               trace (snd (run_step env s w)) = trace w ++ ev1 /\
               Forall conversational ev1).
    { destruct s as [u|]; cbn [run_step].
      - apply process_update_events.
      - rewrite (@job_without_subscribers env w Hnull).
        destruct (sqlite_fault env (trace w) _);
          (eexists; split; [reflexivity|]; repeat constructor). }
    destruct Hs as [ev1 [H1 F1]].
    exists (ev1 ++ ev2). rewrite H2, H1, app_assoc.
    split; [reflexivity|]. apply Forall_app. now split.
Qed.

(** X10.  From a new database the daily broadcast reaches nobody, however
    the program has run: no run contains a [send_message], and the job, in
    the state any run leaves, only lists the subscribers; it asks for no
    generation, sends nothing and writes nothing. *)
Theorem daily_horoscope_job_reaches_nobody
  (steps : list Step) (tr : list Event) (env' : Env) :
  let w := run_steps env steps {| db := connect_new; trace := tr |} in
  (exists events,
      trace w = tr ++ events /\
      forall chat_id txt r,
        ~ In (EvTelegram (send_message chat_id txt) r) events) /\
  db (snd (daily_horoscope_job env' w)) = db w /\
  exists r,
    fst (daily_horoscope_job env' w) = r /\
    trace (snd (daily_horoscope_job env' w)) =
      trace w ++ [EvSql SelectUsersForNotification r].
Proof.
  intros w.
  destruct (@run_steps_conversational steps
              {| db := connect_new; trace := tr |})
    as [Hnull [events [Ht Hc]]]; [intros r []|].
  fold w in Hnull, Ht. split.
  - exists events. split; [exact Ht|].
    intros chat_id txt r Hin. rewrite Forall_forall in Hc.
    exact (Hc _ Hin).
  - rewrite (@job_without_subscribers env' w Hnull).
    destruct (sqlite_fault env' (trace w) _) as [e|];
      (split; [reflexivity|]; eexists; split; reflexivity).
Qed.

End Dispatch.

Lemma process_update_spares_store_witness :
  let u := Callback {| from_user_id := 5; data := "Змееносец" |} in
  snd (process_update Scenario.calm u Scenario.fresh) = Scenario.fresh.
Proof.
  intros u.
  destruct (@process_update_spares_store Scenario.calm u Scenario.fresh)
    as [Hdb [events [Ht _]]].
  - intros q z Hq Hz. inversion Hq; subst q. simpl in Hz. cbn [data].
    repeat (destruct Hz as [Hz|Hz]; [subst z; split; discriminate|]).
    contradiction.
  - reflexivity.
Defined.

(** ** The rows the program stores *)

Section StoredRows.

Lemma user_exists_kept now uid sign v d :
  user_exists v d = true ->
  user_exists v (insert_or_replace_user now uid sign d) = true.
Proof.
  unfold user_exists. rewrite !existsb_exists. intros [r [Hr Hk]].
  destruct (Z.eq_dec (user_id r) uid) as [E|E].
  - eexists. split; [apply In_users_insert_or_replace; now left|].
    apply has_key_true in Hk. apply has_key_true. simpl. congruence.
  - exists r. split; [|exact Hk].
    apply In_users_insert_or_replace. right. now split.
Qed.

Lemma program_write_keeps_referential d d' :
  program_write d d' -> referential d -> referential d'.
Proof.
  intros [now uid sign a Hm|now r txt a b Hr Hins] Hd h Hh.
  - apply user_exists_kept. apply Hd. exact Hh.
  - apply insert_horoscope_appends in Hins. destruct Hins as [Hu [_ Hhs]].
    unfold user_exists. rewrite Hu. rewrite Hhs in Hh.
    apply in_app_or in Hh. destruct Hh as [Hh|[<-|[]]].
    + apply Hd. exact Hh.
    + simpl. apply existsb_exists. exists r. split; [exact Hr|].
      now apply has_key_true.
Qed.

(** X9.  The program never breaks the foreign key it declares and does not
    enforce: when every history row belongs to a user that has a row in
    [users], this is still so after any run.  The on-demand flow writes
    the preference before the history row, the broadcast takes its users
    from [users], and no statement removes a user. *)
Theorem run_steps_keep_referential (env : Env) (steps : list Step) (w : World) :
  referential (db w) ->
  referential (db (run_steps env steps w)).
Proof.
  intros H.
  eapply (@program_writes_keep referential);
    [exact (@program_write_keeps_referential)
    | apply run_steps_program_writes | exact H].
Qed.

Lemma program_write_keeps_rows d d' :
  program_write d d' -> kept d -> kept d'.
Proof.
  intros [now uid sign a Hm|now r txt a b Hr Hins] [Hu Hh].
  - split; [|exact Hh]. rewrite Forall_forall in *. intros x Hx.
    apply In_users_insert_or_replace in Hx. destruct Hx as [->|[Hx Hne]].
    + split; [apply rows_of_insert_or_replace|]. cbn. repeat split.
      apply re_match_sign_pattern in Hm. destruct Hm as [z [Hz [->| ->]]];
        exists z; auto.
    + destruct (Hu x Hx) as [H1 H2]. split; [|exact H2].
      now rewrite rows_of_insert_or_replace_other.
  - apply insert_horoscope_appends in Hins. destruct Hins as [Hus [_ Hhs]].
    split.
    + rewrite Hus. exact Hu.
    + rewrite Hhs. apply Forall_app. split; [exact Hh|].
      constructor; [|constructor]. cbn.
      rewrite Forall_forall in Hu. now apply (Hu r Hr).
Qed.

(** X7.  In every state the program produces from a new database: each
    user has exactly one row; the sign of every [users] row and of every
    history row is a token [sign_pattern] accepted, that is one of the
    twelve signs, with or without a final line feed; no row has a
    [notification_time]; and [created_at] equals [updated_at] in every
    [users] row, since each selection rewrites the row. *)
Theorem rows_from_new_database
  (env : Env) (steps : list Step) (tr : list Event) :
  let d := db (run_steps env steps {| db := connect_new; trace := tr |}) in
  Forall (fun r =>
            rows_of (user_id r) (users d) = [r] /\
            (exists z, In z ZODIAC_SIGNS /\
                       (zodiac_sign r = Some z \/ zodiac_sign r = Some (z +++ LF))) /\
            notification_time r = None /\
            created_at r = updated_at r) (users d) /\
  Forall (fun h =>
            exists z, In z ZODIAC_SIGNS /\
                      (h_zodiac_sign h = Some z \/
                       h_zodiac_sign h = Some (z +++ LF))) (horoscopes d).
Proof.
  intros d.
  eapply (@program_writes_keep kept);
    [exact (@program_write_keeps_rows)
    | apply (@run_steps_program_writes env steps (mkWorld connect_new tr))
    | split; constructor].
Qed.


Lemma run_steps_keep_referential_witness :
  let d := db (run_steps Scenario.calm
                 [Receive (Callback Cases.leo_pressed); DailyRun;
                  Receive (Callback Scenario.aries_lf)]
                 Scenario.fresh) in
  Forall (fun h => user_exists (h_user_id h) d = true) (horoscopes d).
Proof.
  intros d. apply Forall_forall.
  exact (@run_steps_keep_referential Scenario.calm
           [Receive (Callback Cases.leo_pressed); DailyRun;
            Receive (Callback Scenario.aries_lf)]
           Scenario.fresh
           (fun h (H : In h []) => match H with end)).
Defined.

(** *** The ids of the history *)

Lemma fold_max_bounded (m : Z) (l : list Z) :
  (forall x, In x l -> x <= m) -> fold_right Z.max m l = m.
Proof.
  induction l as [|x l IH]; simpl; intros H; [reflexivity|].
  rewrite IH by (intros y Hy; apply H; now right).
  apply Z.max_r. apply H. now left.
Qed.

Lemma fold_max_above (m : Z) (l : list Z) :
  m <= fold_right Z.max m l /\ forall x, In x l -> x <= fold_right Z.max m l.
Proof.
  induction l as [|x l [IH1 IH2]]; simpl.
  - split; [lia | intros x []].
  - split; [lia|]. intros y [->|Hy]; [lia|]. specialize (IH2 y Hy). lia.
Qed.

Lemma one_to_succ n : one_to (S n) = one_to n ++ [Z.of_nat (S n)].
Proof. unfold one_to. now rewrite seq_S, map_app. Qed.

Lemma In_one_to n x : In x (one_to n) -> x <= Z.of_nat n.
Proof.
  unfold one_to. rewrite in_map_iff. intros [k [<- Hk]].
  apply in_seq in Hk. lia.
Qed.

Lemma write_keeps_numbered d d' : write d d' -> numbered d -> numbered d'.
Proof.
  intros [now uid sign a|now uid sign txt a b Hins] [Hids Hseq].
  - split; assumption.
  - assert (Hnext : next_horoscope_id a = Z.of_nat (S (List.length (horoscopes a)))).
    { unfold next_horoscope_id. rewrite Hids, Hseq, fold_max_bounded.
      - lia.
      - apply In_one_to. }
    unfold insert_horoscope in Hins.
    destruct (foreign_keys a && negb (user_exists uid a)); [discriminate|].
    inversion Hins; subst b; clear Hins. unfold numbered. cbn [horoscopes horoscopes_seq].
    rewrite length_app, map_app, Nat.add_1_r, one_to_succ, Hids. cbn [map id List.length].
    rewrite Hnext. split; reflexivity.
Qed.

(** X8.  A successful [save_horoscope] gives its row an id larger than
    every id in the table and than the AUTOINCREMENT counter, and moves the
    counter to it: no id is used twice.  From a new database the ids of
    the history are 1, 2, ..., n in the order of the rows. *)
Theorem horoscope_ids_are_fresh
  (env : Env) (uid : Z) (sign : option string) (txt : string) (w : World) :
  let w' := snd (save_horoscope env uid sign txt w) in
  (fst (save_horoscope env uid sign txt w) = Ok tt ->
   exists row,
     horoscopes (db w') = horoscopes (db w) ++ [row] /\
     Forall (fun h => id h < id row) (horoscopes (db w)) /\
     horoscopes_seq (db w) < id row /\
     horoscopes_seq (db w') = id row) /\
  forall env0 steps tr,
    let d := db (run_steps env0 steps {| db := connect_new; trace := tr |}) in
    map id (horoscopes d) = one_to (List.length (horoscopes d)).
Proof.
  intros w'. subst w'. split.
  - rewrite save_horoscope_run.
    destruct (sqlite_fault env (trace w) _) as [e|]; [discriminate|].
    destruct (insert_horoscope _ uid sign txt (db w)) as [d|e] eqn:E;
      [|discriminate].
    intros _. cbn [snd db]. unfold insert_horoscope in E.
    destruct (foreign_keys (db w) && negb (user_exists uid (db w)));
      [discriminate|].
    inversion E; subst d; clear E. cbn [horoscopes horoscopes_seq].
    eexists. split; [reflexivity|]. cbn [id]. unfold next_horoscope_id.
    destruct (fold_max_above (horoscopes_seq (db w))
                (map id (horoscopes (db w)))) as [H1 H2].
    repeat split; try lia.
    apply Forall_forall. intros h Hh.
    specialize (H2 (id h) (in_map id _ _ Hh)). lia.
  - intros env0 steps tr d.
    assert (H : numbered d).
    { eapply (@writes_keep numbered);
        [exact (@write_keeps_numbered)
        | apply (@writes_run_steps env0 steps (mkWorld connect_new tr))
        | split; reflexivity]. }
    apply H.
Qed.

Lemma horoscope_ids_are_fresh_witness :
  let w := snd (save_horoscope Scenario.calm 1 None "a" Scenario.fresh) in
  let w' := snd (save_horoscope Scenario.calm 2 None "b" w) in
  exists row,
    horoscopes (db w') = horoscopes (db w) ++ [row] /\
    Forall (fun h => id h < id row) (horoscopes (db w)).
Proof.
  intros w w'.
  destruct (@horoscope_ids_are_fresh Scenario.calm 2 None "b"%string w)
    as [H _].
  destruct (H eq_refl) as [row [H1 [H2 _]]].
  exists row. split; [exact H1 | exact H2].
Defined.

End StoredRows.

(** ** The daily run with collaborators that work *)

Section WorkingBroadcast.

Variable env : Env.
Hypothesis env_works : works env.

Lemma delivered_app a b : delivered (a ++ b) = delivered a ++ delivered b.
Proof.
  induction a as [|[m r|[| | |chat txt] [u|e]|st r|l] a IH]; simpl; congruence.
Qed.

(** A turn for a subscriber that has its row. *)
Lemma notify_serves r w :
  In r (users (db w)) ->
  exists row events,
    notify env (user_id r, zodiac_sign r) w =
      (Ok tt,
       {| db := {| users := users (db w);
                   horoscopes := horoscopes (db w) ++ [row];
                   horoscopes_seq := id row;
                   foreign_keys := foreign_keys (db w) |};
          trace := trace w ++ events |}) /\
    recipient row = (user_id r, zodiac_sign r) /\
    map fst (delivered events) = [user_id r] /\
    logged events = [] /\ failures events = [].
Proof.
  intros Hr. destruct env_works as [Hchat [Htg Hsql]].
  rewrite notify_run. cbv zeta.
  destruct (Hchat (trace w) (request_for (zodiac_sign r))) as [p Hp].
  rewrite Hp, Htg, Hsql. unfold insert_horoscope.
  assert (He : user_exists (user_id r) (db w) = true).
  { apply existsb_exists. exists r. split; [exact Hr | now apply has_key_true]. }
  rewrite He, andb_false_r.
  eexists (mkHoroscopeRow _ _ _ _ _), _. split; [reflexivity|].
  repeat split.
Qed.

Lemma for_each_notify_serves rows w :
  (forall r, In r rows -> In r (users (db w))) ->
  let subscribers := map (fun r => (user_id r, zodiac_sign r)) rows in
  exists w' added events,
    for_each subscribers (notify env) w = (Ok tt, w') /\
    users (db w') = users (db w) /\
    horoscopes (db w') = horoscopes (db w) ++ added /\
    map recipient added = subscribers /\
    trace w' = trace w ++ events /\
    map fst (delivered events) = map fst subscribers /\
    logged events = [] /\ failures events = [].
Proof.
  revert w. induction rows as [|r rows IH]; intros w Hrows; cbv zeta; cbn [map].
  - exists w, [], []. rewrite !app_nil_r. repeat split.
  - rewrite for_each_cons.
    destruct (@notify_serves r w) as [row [ev1 [Hrun [Hrec [Hdel [Hlog Hfail]]]]]];
      [apply Hrows; now left|].
    rewrite Hrun.
    match goal with
    | |- context [for_each _ _ ?w1] =>
        destruct (IH w1) as [w' [added [ev2 [Hrun2 [Hu [Hh [Hrec2 [Ht [Hdel2 [Hlog2 Hfail2]]]]]]]]]]
    end.
    { intros x Hx. cbn [db users]. apply Hrows. now right. }
    cbv zeta in Hrun2. rewrite Hrun2. cbn [db users horoscopes trace] in *.
    exists w', (row :: added), (ev1 ++ ev2). repeat split.
    + exact Hu.
    + rewrite Hh, <- app_assoc. reflexivity.
    + cbn [map]. now rewrite Hrec, Hrec2.
    + rewrite Ht, <- app_assoc. reflexivity.
    + rewrite delivered_app, map_app, Hdel, Hdel2. reflexivity.
    + rewrite logged_app, Hlog, Hlog2. reflexivity.
    + rewrite failures_app, Hfail, Hfail2. reflexivity.
Qed.

Lemma daily_horoscope_job_serves (w : World) :
  let subscribers := select_users_for_notification (db w) in
  let w' := snd (daily_horoscope_job env w) in
  fst (daily_horoscope_job env w) = Ok tt /\
  users (db w') = users (db w) /\
  select_users_for_notification (db w') = subscribers /\
  exists added events,
    horoscopes (db w') = horoscopes (db w) ++ added /\
    map recipient added = subscribers /\
    trace w' = trace w ++ events /\
    map fst (delivered events) = map fst subscribers /\
    logged events = [].
Proof.
  intros subscribers w'. subst subscribers w'.
  destruct env_works as [_ [_ Hsql]].
  unfold daily_horoscope_job. rewrite bind_run, get_users_for_notification_run.
  rewrite Hsql.
  destruct (@for_each_notify_serves
              (filter (fun r => is_not_null (notification_time r)) (users (db w)))
              (record (EvSql SelectUsersForNotification (Ok tt)) w))
    as [w' [added [events [Hrun [Hu [Hh [Hrec [Ht [Hdel [Hlog _]]]]]]]]]].
  { intros r Hr. apply filter_In in Hr. apply Hr. }
  cbv zeta in Hrun.
  change (map (fun r => (user_id r, zodiac_sign r))
            (filter (fun r => is_not_null (notification_time r))
               (users (db w))))
    with (select_users_for_notification (db w)) in Hrun, Hrec, Hdel.
  rewrite Hrun. cbn [fst snd db trace record] in *.
  split; [reflexivity|]. split; [exact Hu|]. split.
  - unfold select_users_for_notification. now rewrite Hu.
  - exists added, (EvSql SelectUsersForNotification (Ok tt) :: events).
    repeat split; try assumption.
    rewrite Ht, <- app_assoc. reflexivity.
Qed.


(** X11.  With collaborators that work, [daily_horoscope_job] returns
    normally, delivers one message to every subscriber and appends one
    history row for every subscriber, in the order of the listing and with
    the subscriber's sign; it logs nothing and leaves [users] as it was.
    There is no deduplication: a second run straight after the first
    appends the same recipients again. *)
Theorem daily_horoscope_job_serves_every_subscriber (w : World) :
  let subscribers := select_users_for_notification (db w) in
  let w1 := snd (daily_horoscope_job env w) in
  let w2 := snd (daily_horoscope_job env w1) in
  fst (daily_horoscope_job env w) = Ok tt /\
  users (db w1) = users (db w) /\
  (exists added events,
      horoscopes (db w1) = horoscopes (db w) ++ added /\
      map recipient added = subscribers /\
      trace w1 = trace w ++ events /\
      map fst (delivered events) = map fst subscribers /\
      logged events = []) /\
  exists added,
    horoscopes (db w2) = horoscopes (db w) ++ added /\
    map recipient added = subscribers ++ subscribers.
Proof.
  intros subscribers w1 w2.
  destruct (daily_horoscope_job_serves w)
    as [Hok [Hu [Hsel [added [events [Hh [Hrec [Ht [Hdel Hlog]]]]]]]]].
  fold w1 in Hu, Hsel, Hh, Ht. fold subscribers in Hsel, Hrec, Hdel.
  split; [exact Hok|]. split; [exact Hu|]. split.
  - exists added, events. repeat split; assumption.
  - destruct (daily_horoscope_job_serves w1)
      as [_ [_ [_ [added2 [_ [Hh2 [Hrec2 _]]]]]]].
    fold w2 in Hh2. exists (added ++ added2). split.
    + now rewrite Hh2, Hh, app_assoc.
    + now rewrite map_app, Hrec, Hrec2, Hsel.
Qed.

End WorkingBroadcast.

Lemma daily_horoscope_job_serves_every_subscriber_witness :
  let w := Scenario.world_of [Scenario.pisces; Scenario.taurus] in
  fst (daily_horoscope_job Scenario.calm w) = Ok tt /\
  exists added,
    horoscopes (db (snd (daily_horoscope_job Scenario.calm
                           (snd (daily_horoscope_job Scenario.calm w))))) =
      horoscopes (db w) ++ added /\
    map recipient added =
      [ (1, Some "Рыбы"%string); (2, Some "Телец"%string);
        (1, Some "Рыбы"%string); (2, Some "Телец"%string) ].
Proof.
  intros w.
  destruct (@daily_horoscope_job_serves_every_subscriber Scenario.calm
              calm_works w) as [H1 [_ [_ H2]]].
  split; [exact H1 | exact H2].
Defined.

(** ** Two selections in a row *)

(** X12.  A second successful [update_user_zodiac] for a user overwrites
    the first completely: the database is the one a single call with the
    second sign, at the time of the second call, would have left. *)
Theorem update_user_zodiac_overwrites
  (env : Env) (uid : Z) (sign1 sign2 : string) (w : World) :
  let w1 := snd (update_user_zodiac env uid sign1 w) in
  let w2 := snd (update_user_zodiac env uid sign2 w1) in
  fst (update_user_zodiac env uid sign1 w) = Ok tt ->
  fst (update_user_zodiac env uid sign2 w1) = Ok tt ->
  db w2 =
  insert_or_replace_user (current_timestamp env (trace w1)) uid sign2 (db w).
Proof.
  intros w1 w2. subst w2. rewrite (update_user_zodiac_run env uid sign2 w1).
  subst w1. rewrite (update_user_zodiac_run env uid sign1 w).
  destruct (sqlite_fault env (trace w) _) as [e|]; [discriminate|]. intros _.
  cbn [snd trace db].
  destruct (sqlite_fault env _ _) as [e|]; [discriminate|]. intros _.
  cbn [snd db]. unfold insert_or_replace_user at 1. cbn [horoscopes horoscopes_seq foreign_keys].
  pose proof (other_rows_insert_or_replace
                (current_timestamp env (trace w)) uid sign1 (db w)) as H.
  unfold other_rows in H. rewrite H. reflexivity.
Qed.

Lemma update_user_zodiac_overwrites_witness :
  db (snd (update_user_zodiac Scenario.calm 1 "Дева"
             (snd (update_user_zodiac Scenario.calm 1 "Овен"
                     (Scenario.world_of [Scenario.aries; Scenario.taurus]))))) =
  insert_or_replace_user 1001 1 "Дева"
    (db (Scenario.world_of [Scenario.aries; Scenario.taurus])).
Proof.
  exact (@update_user_zodiac_overwrites Scenario.calm 1 "Овен" "Дева"
           (Scenario.world_of [Scenario.aries; Scenario.taurus])
           eq_refl eq_refl).
Defined.

(** ** Startup *)

Section StartupChecks.

Import Startup.

Lemma truthy_iff v : truthy v = true <-> exists c s, v = Some (String c s).
Proof.
  destruct v as [[|c s]|]; simpl; split; try discriminate.
  - intros [c [s H]]. discriminate H.
  - intros _. now exists c, s.
  - reflexivity.
  - intros [c [s H]]. discriminate H.
Qed.

(** X13.  [_check_env_vars] never touches the database.  It returns
    normally, with no effect at all, exactly when both required variables
    are set to a non-empty value: a variable set to the empty string
    counts as missing.  Otherwise it raises the fixed ValueError after
    logging one line that names the missing variables, in the order
    TELEGRAM_BOT_TOKEN, GIGACHAT_CREDENTIALS. *)
Theorem check_env_vars_reports_missing (os_getenv : Environ) (w : World) :
  let missing := filter (fun var => negb (truthy (os_getenv var))) required_vars in
  let w' := snd (_check_env_vars os_getenv w) in
  db w' = db w /\
  (forall var, In var missing <->
               In var required_vars /\
               (os_getenv var = None \/ os_getenv var = Some ""%string)) /\
  match fst (_check_env_vars os_getenv w) with
  | Ok _ =>
      missing = [] /\ w' = w /\
      forall var, In var required_vars ->
                  exists c s, os_getenv var = Some (String c s)
  | Raised e =>
      missing <> [] /\
      e = Exception "Необходимые переменные окружения не заданы" /\
      trace w' = trace w ++
        [EvLogError ("Отсутствуют переменные: " +++ String.concat ", " missing)]
  end.
Proof.
  intros missing w'. subst w'. split; [|split].
  - unfold _check_env_vars. fold missing. destruct missing; reflexivity.
  - intros var. unfold missing. rewrite filter_In, negb_true_iff.
    split; intros [Hin H]; (split; [exact Hin|]).
    + destruct (os_getenv var) as [[|c s]|]; auto. discriminate H.
    + destruct H as [-> | ->]; reflexivity.
  - unfold _check_env_vars. fold missing.
    destruct missing as [|v l] eqn:E.
    + cbn [fst snd ret]. repeat split. intros var Hin.
      apply truthy_iff. destruct (truthy (os_getenv var)) eqn:T; [reflexivity|].
      assert (Hm : In var missing).
      { unfold missing. apply filter_In. split; [exact Hin|]. now rewrite T. }
      rewrite E in Hm. contradiction.
    + cbn. repeat split. discriminate.
Qed.

End StartupChecks.
